(** * Outline inference of [challenge1a/pdfextract.py]

    A shallow embedding of [process_pdf_to_outline] and the properties of
    its stages: dominant style of a line, body style, title, heading
    candidates, election of the H1 style, ranking into H1/H2/H3 and the
    ordering of the resulting outline; then the file names of its batch
    driver, and the chunking and ranking of [round 2/pyth.py].

    Modelling conventions.
    - The decoded document (what [page.get_text("dict")] yields) is the
      input: pages, blocks, lines and spans.  Opening and closing the file
      is outside the model.
    - A Python [float] that is finite is a rational number; font sizes and
      bounding-box coordinates are values of [Q].  [round] on a float is
      exact round-half-to-even, which is what [py_round] computes.
    - A Python [str] is a [string] whose characters are code points below
      256.  On that range [str.isspace], the regex class [\s] and the regex
      class [\d] are the predicates [isspace] and [isdigit] below.
    - A Python [dict] (and [Counter]) is an association list in insertion
      order: updating a present key keeps its position, a new key goes to
      the end. *)

From Stdlib Require Import List ZArith QArith Qround Bool Ascii String Lia.
From Stdlib Require Import Permutation Sorted.
Import ListNotations.

Local Open Scope bool_scope.
Local Open Scope list_scope.
Local Open Scope Z_scope.

(** ** Insertion-ordered dictionaries *)

Section PyDict.
Context {K V : Type}.
Variable eqb : K -> K -> bool.

Definition dict := list (K * V).

Definition keys (d : dict) : list K := map fst d.

Fixpoint dict_get (d : dict) (k : K) : option V :=
  match d with
  | [] => None
  | (k', v) :: r => if eqb k k' then Some v else dict_get r k
  end.

(** [d[k] = f(d.get(k))]: in place when [k] is present, appended otherwise. *)
Fixpoint dict_update (k : K) (f : option V -> V) (d : dict) : dict :=
  match d with
  | [] => [(k, f None)]
  | (k', v) :: r =>
      if eqb k k' then (k', f (Some v)) :: r
      else (k', v) :: dict_update k f r
  end.

Definition dict_set (k : K) (v : V) (d : dict) : dict :=
  dict_update k (fun _ => v) d.
End PyDict.

(** ** [collections.Counter] *)

Section Counter.
Context {K : Type}.
Variable eqb : K -> K -> bool.

Definition Counter := list (K * nat).

(** [c[k] += n]; a missing key counts as 0. *)
Definition counter_add (k : K) (n : nat) (c : Counter) : Counter :=
  dict_update eqb k
    (fun o => match o with Some m => m + n | None => 0 + n end)%nat c.

(** The counter after [c[k] += n] for each [(k, n)] of [l], in order. *)
Definition counter_of (l : list (K * nat)) : Counter :=
  fold_left (fun c kn => counter_add (fst kn) (snd kn) c) l [].

(** [Counter(iterable)]: every element counts once. *)
Definition counter_of_keys (l : list K) : Counter :=
  counter_of (map (fun k => (k, 1%nat)) l).

(** [max(items, key=count)]: the running maximum is replaced only by a
    strictly greater count, so the first maximal item wins. *)
Fixpoint max_first (best : K * nat) (c : Counter) : K * nat :=
  match c with
  | [] => best
  | x :: r => if (snd best <? snd x)%nat then max_first x r
              else max_first best r
  end.

(** The key of [c.most_common(1)], [None] when the counter is empty. *)
Definition most_common1 (c : Counter) : option K :=
  match c with
  | [] => None
  | x :: r => Some (fst (max_first x r))
  end.
End Counter.

(** ** Stable sorting

    [sorted] and [list.sort] are stable and compare with [<] only.  On a
    key order that is a total preorder a stable sort is unique, so the
    insertion sort below returns the list Python's sort returns; with
    [reverse=True] equal keys keep their order too.  [lt a b] says that
    [a] has to come strictly before [b]. *)

Section StableSort.
Context {A : Type}.
Variable lt : A -> A -> bool.

Fixpoint insert_sorted (x : A) (l : list A) : list A :=
  match l with
  | [] => [x]
  | y :: r => if lt y x then y :: insert_sorted x r else x :: y :: r
  end.

Definition stable_sort (l : list A) : list A :=
  fold_right insert_sorted [] l.

(** [a] may stand before [b] in a sorted list: [b] need not precede it. *)
Definition in_order (a b : A) : Prop := lt b a = false.
End StableSort.

(** ** Numbers and characters *)

(** [round(x)] for a float [x]: nearest integer, halves to the even one. *)
Definition py_round (x : Q) : Z :=
  let f := Qfloor x in
  match Qcompare (x - inject_Z f) (1 # 2) with
  | Lt => f
  | Gt => f + 1
  | Eq => if Z.even f then f else f + 1
  end.

Definition Qltb (a b : Q) : bool := negb (Qle_bool b a).

Definition code (c : ascii) : nat := nat_of_ascii c.

(** [str.isspace] and regex [\s] on code points below 256. *)
Definition isspace (c : ascii) : bool :=
  let n := code c in
  ((9 <=? n) && (n <=? 13) || (28 <=? n) && (n <=? 32)
   || (n =? 133) || (n =? 160))%nat.

(** Regex [\d] on code points below 256. *)
Definition isdigit (c : ascii) : bool :=
  let n := code c in ((48 <=? n) && (n <=? 57))%nat.

(** Regex range [A-Z]. *)
Definition isupper_AZ (c : ascii) : bool :=
  let n := code c in ((65 <=? n) && (n <=? 90))%nat.

Definition is_char (a c : ascii) : bool := Ascii.eqb a c.

Arguments isspace : simpl never.
Arguments isdigit : simpl never.
Arguments isupper_AZ : simpl never.
Arguments is_char : simpl never.

(** ** Strings *)

Fixpoint lstrip (s : string) : string :=
  match s with
  | EmptyString => EmptyString
  | String c r => if isspace c then lstrip r else s
  end.

Fixpoint rstrip (s : string) : string :=
  match s with
  | EmptyString => EmptyString
  | String c r =>
      match rstrip r with
      | EmptyString => if isspace c then EmptyString else String c EmptyString
      | r' => String c r'
      end
  end.

(** [s.strip()] *)
Definition strip (s : string) : string := rstrip (lstrip s).

(** [s.split()]: the maximal runs of non-whitespace characters; [cur] is
    the run being read. *)
Fixpoint split_from (cur : string) (s : string) : list string :=
  match s with
  | EmptyString =>
      match cur with EmptyString => [] | _ => [cur] end
  | String c r =>
      if isspace c then
        match cur with
        | EmptyString => split_from EmptyString r
        | _ => cur :: split_from EmptyString r
        end
      else split_from (cur ++ String c EmptyString) r
  end.

Definition split (s : string) : list string := split_from EmptyString s.

(** [s.endswith(suffix)] *)
Definition endswith (s suffix : string) : bool :=
  let n := String.length s in
  let m := String.length suffix in
  (m <=? n)%nat && String.eqb (substring (n - m) m s) suffix.

(** [s.endswith((x, y, ...))] *)
Definition endswith_any (s : string) (suffixes : list string) : bool :=
  existsb (endswith s) suffixes.

(** ** The regular expressions of the source

    Both patterns are sequences of character classes, each taken once or
    one or more times; [re_match] is [re.match] (anchored at the start, any
    rest allowed) for such a pattern, with backtracking over [+]. *)

Inductive quant : Type := One | Plus.

Definition regex := list ((ascii -> bool) * quant).

Fixpoint re_plus (p : ascii -> bool) (k : string -> bool) (s : string) : bool :=
  match s with
  | EmptyString => k s
  | String c r => (p c && re_plus p k r) || k s
  end.

Fixpoint re_match (r : regex) : string -> bool :=
  match r with
  | [] => fun _ => true
  | (p, One) :: r' =>
      fun s => match s with
               | EmptyString => false
               | String c s' => p c && re_match r' s'
               end
  | (p, Plus) :: r' =>
      fun s => match s with
               | EmptyString => false
               | String c s' => p c && re_plus p (re_match r') s'
               end
  end.

(** [^\d+\.[\sA-Z]] *)
Definition numbered_re : regex :=
  [ (isdigit, Plus); (is_char ".", One);
    (fun c => isspace c || isupper_AZ c, One) ].

(** [^\d+\.\d+] *)
Definition subnumbered_re : regex :=
  [ (isdigit, Plus); (is_char ".", One); (isdigit, Plus) ].

(** ** Input: the decoded document *)

Module Span.
Record t : Type := mk { text : string; size : Q; flags : Z; color : Z }.
End Span.

Module RawLine.
Record t : Type := mk { spans : list Span.t; bbox : Q * Q * Q * Q }.
End RawLine.

Module Block.
Record t : Type := mk { type : Z; lines : list RawLine.t }.
End Block.

(** A page is the list of its blocks, a document the list of its pages. *)
Definition Page := list Block.t.
Definition Doc := list Page.

(** ** Styles and line records *)

(** [(round(size), is_bold, color)] *)
Definition Style : Type := Z * bool * Z.

Definition style_eqb (a b : Style) : bool :=
  let '(s1, b1, c1) := a in
  let '(s2, b2, c2) := b in
  (s1 =? s2) && Bool.eqb b1 b2 && (c1 =? c2).

(** [s[0]] *)
Definition style_size (s : Style) : Z := fst (fst s).

Definition style_is_bold (s : Style) : bool := snd (fst s).

Record LineInfo : Type := mkLine {
  text : string;
  style : Style;
  font_size : Z;
  page : Z;
  bbox : Q * Q * Q * Q
}.

(** [bbox[1]], the top edge. *)
Definition bbox1 (b : Q * Q * Q * Q) : Q := snd (fst (fst b)).

Inductive Level : Type := H1 | H2 | H3.

(** An outline entry before projection: [{"level": level, **line_info}]. *)
Record Entry : Type := mkEntry { level : Level; line_info : LineInfo }.

Module Heading.
Record t : Type := mk { level : Level; text : string; page : Z }.
End Heading.

Module Out.
Record t : Type := mk { title : string; outline : list Heading.t }.
End Out.

(** ** Step 1: lines and their dominant style *)

Definition style_tuple (s : Span.t) : Style :=
  (py_round (Span.size s),
   negb (Z.land (Span.flags s) (2 ^ 1) =? 0),
   Span.color s).

(** The pairs (style, number of characters) of the spans of a line. *)
Definition span_weights (spans : list Span.t) : list (Style * nat) :=
  map (fun s => (style_tuple s, String.length (Span.text s))) spans.

Definition span_styles (spans : list Span.t) : Counter :=
  counter_of style_eqb (span_weights spans).

Definition dominant_style (spans : list Span.t) : option Style :=
  most_common1 (span_styles spans).

Definition line_text (spans : list Span.t) : string :=
  strip (String.concat " " (map Span.text spans)).

(** The state of the scan: [lines_data] and [style_counts]. *)
Definition ScanState : Type := list LineInfo * @Counter Style.

Definition scan_line (page_num : nat) (st : ScanState) (line : RawLine.t)
  : ScanState :=
  match RawLine.spans line with
  | [] => st
  | _ :: _ =>
      match dominant_style (RawLine.spans line) with
      | None => st
      | Some dom =>
          let txt := line_text (RawLine.spans line) in
          if String.eqb txt EmptyString then st
          else
            (fst st ++ [ {| text := txt; style := dom;
                            font_size := style_size dom;
                            page := Z.of_nat page_num + 1;
                            bbox := RawLine.bbox line |} ],
             counter_add style_eqb dom 1 (snd st))
      end
  end.

Definition scan_block (page_num : nat) (st : ScanState) (block : Block.t)
  : ScanState :=
  if Block.type block =? 0
  then fold_left (scan_line page_num) (Block.lines block) st
  else st.

Definition scan_page (st : ScanState) (p : nat * Page) : ScanState :=
  fold_left (scan_block (fst p)) (snd p) st.

Definition enumerate {A : Type} (l : list A) : list (nat * A) :=
  combine (seq 0 (List.length l)) l.

Definition scan_doc (doc : Doc) : ScanState :=
  fold_left scan_page (enumerate doc) ([], []).

Definition lines_data (doc : Doc) : list LineInfo := fst (scan_doc doc).

Definition style_counts (doc : Doc) : @Counter Style := snd (scan_doc doc).

(** ** Step 2: body style *)

Definition body_style (doc : Doc) : option Style :=
  most_common1 (style_counts doc).

(** [style != body_style], where [body_style] may be [None]. *)
Definition style_differs (s : Style) (b : option Style) : bool :=
  match b with
  | None => true
  | Some b' => negb (style_eqb s b')
  end.

(** ** Step 3: title *)

(** Descending by [font_size]: a larger size comes strictly before. *)
Definition larger_font (a b : LineInfo) : bool := font_size b <? font_size a.

Definition page1_lines (doc : Doc) : list LineInfo :=
  stable_sort larger_font (filter (fun l => page l =? 1) (lines_data doc)).

Definition title (doc : Doc) : string :=
  match page1_lines doc with
  | l :: _ => text l
  | [] => "Untitled Document"%string
  end.

(** ** Step 4: heading candidates *)

Definition is_candidate (doc : Doc) (l : LineInfo) : bool :=
  style_differs (style l) (body_style doc)
  && negb (String.eqb (text l) (title doc)).

Definition all_candidates (doc : Doc) : list LineInfo :=
  filter (is_candidate doc) (lines_data doc).

(** ** Step 5: the H1 style *)

Definition is_numbered_h1 (t : string) : bool :=
  re_match numbered_re t && negb (re_match subnumbered_re t).

Definition numbered_h1_candidates (doc : Doc) : list LineInfo :=
  filter (fun l => is_numbered_h1 (text l)) (all_candidates doc).

Definition h1_style (doc : Doc) : option Style :=
  match numbered_h1_candidates doc with
  | _ :: _ =>
      most_common1
        (counter_of_keys style_eqb (map style (numbered_h1_candidates doc)))
  | [] =>
      most_common1
        (counter_of_keys style_eqb (map style (all_candidates doc)))
  end.

(** ** Step 6: groups of the candidates that pass the pruning *)

Definition passes_pruning (l : LineInfo) : bool :=
  (List.length (split (text l)) <? 40)%nat
  && negb (endswith_any (text l) ["."%string; ":"%string]).

Definition add_to_group (g : @dict Style (list LineInfo)) (l : LineInfo)
  : @dict Style (list LineInfo) :=
  if passes_pruning l
  then dict_update style_eqb (style l)
         (fun o => match o with Some ls => ls ++ [l] | None => [] ++ [l] end) g
  else g.

Definition heading_groups (doc : Doc) : @dict Style (list LineInfo) :=
  fold_left add_to_group (all_candidates doc) [].

(** ** Step 7: levels *)

(** Descending by [s[0]]. *)
Definition larger_style (a b : Style) : bool := style_size b <? style_size a.

Definition subheading_styles (doc : Doc) (h1 : Style) : list Style :=
  stable_sort larger_style
    (filter (fun s => style_size s <? style_size h1)
            (keys (heading_groups doc))).

Definition h1_levels (doc : Doc) (h1 : Style) : @dict Style Level :=
  fold_left
    (fun m s => if style_size h1 <=? style_size s
                then dict_set style_eqb s H1 m else m)
    (keys (heading_groups doc)) [].

Definition level_map (doc : Doc) (h1 : Style) : @dict Style Level :=
  let subs := subheading_styles doc h1 in
  let m1 := match subs with
            | s :: _ => dict_set style_eqb s H2 (h1_levels doc h1)
            | [] => h1_levels doc h1
            end in
  match subs with
  | _ :: s :: _ => dict_set style_eqb s H3 m1
  | _ => m1
  end.

(** ** Step 8: the outline *)

Definition unsorted_outline (doc : Doc) (h1 : Style) : list Entry :=
  flat_map
    (fun g : Style * list LineInfo =>
       match dict_get style_eqb (level_map doc h1) (fst g) with
       | Some lvl => map (mkEntry lvl) (snd g)
       | None => []
       end)
    (heading_groups doc).

(** The order of the tuples [(page, bbox[1])]. *)
Definition reads_before (a b : Entry) : bool :=
  let pa := page (line_info a) in
  let pb := page (line_info b) in
  if pa =? pb
  then Qltb (bbox1 (bbox (line_info a))) (bbox1 (bbox (line_info b)))
  else pa <? pb.

Definition outline (doc : Doc) (h1 : Style) : list Entry :=
  stable_sort reads_before (unsorted_outline doc h1).

Definition project (o : Entry) : Heading.t :=
  {| Heading.level := level o;
     Heading.text := text (line_info o);
     Heading.page := page (line_info o) |}.

Definition final_outline (doc : Doc) (h1 : Style) : list Heading.t :=
  map project (outline doc h1).

(** The sorted outline before projection, empty on the two early exits. *)
Definition outline_entries (doc : Doc) : list Entry :=
  match lines_data doc with
  | [] => []
  | _ :: _ =>
      match h1_style doc with
      | None => []
      | Some h1 => outline doc h1
      end
  end.

Definition process_pdf_to_outline (doc : Doc) : Out.t :=
  match lines_data doc with
  | [] => {| Out.title := "Empty Document"; Out.outline := [] |}
  | _ :: _ =>
      match h1_style doc with
      | None => {| Out.title := title doc; Out.outline := [] |}
      | Some h1 =>
          {| Out.title := title doc; Out.outline := final_outline doc h1 |}
      end
  end.

(** ** Vocabulary of the statements *)

Section Modes.
Context {K : Type}.
Variable eqb : K -> K -> bool.

(** The cumulative weight of [k] in a list of (key, weight) pairs. *)
Fixpoint weight (k : K) (l : list (K * nat)) : nat :=
  match l with
  | [] => 0
  | x :: r => (if eqb k (fst x) then snd x else 0) + weight k r
  end%nat.

(** [s] has the greatest cumulative weight in [l], and every key seen
    before the first pair of [s] weighs strictly less: among the heaviest
    keys [s] is the one seen first. *)
Definition heaviest_first_seen (l : list (K * nat)) (s : K) : Prop :=
  exists pre x post,
    l = pre ++ x :: post /\ fst x = s /\
    (forall y, In y pre -> (weight (fst y) l < weight s l)%nat) /\
    (forall t, (weight t l <= weight s l)%nat).

(** The number of occurrences of [k] in [l]. *)
Definition occurrences (k : K) (l : list K) : nat :=
  List.length (filter (eqb k) l).

(** [s] is the most frequent element of [l], the first seen among the most
    frequent. *)
Definition most_frequent_first_seen (l : list K) (s : K) : Prop :=
  exists pre post,
    l = pre ++ s :: post /\
    (forall t, In t pre -> (occurrences t l < occurrences s l)%nat) /\
    (forall t, (occurrences t l <= occurrences s l)%nat).
End Modes.

(** All characters of [s] satisfy [p]. *)
Fixpoint all_chars (p : ascii -> bool) (s : string) : bool :=
  match s with
  | EmptyString => true
  | String c r => p c && all_chars p r
  end.

(** The numbered top-level pattern as the specification words it: one or
    more digits, a period, a space, an uppercase letter, and no match of
    the sub-numbered pattern. *)
Definition spec_numbered_re : regex :=
  [ (isdigit, Plus); (is_char ".", One); (is_char " ", One);
    (isupper_AZ, One) ].

Definition spec_numbered_h1 (t : string) : bool :=
  re_match spec_numbered_re t && negb (re_match subnumbered_re t).

(** A line of the input yields a line record: it has spans and its joined
    text is not blank. *)
Definition extractable (line : RawLine.t) : bool :=
  match RawLine.spans line with
  | [] => false
  | _ :: _ => negb (String.eqb (line_text (RawLine.spans line)) EmptyString)
  end.

(** The lines of the text blocks of a document. *)
Definition text_lines (doc : Doc) : list RawLine.t :=
  flat_map
    (fun p : Page =>
       flat_map
         (fun b : Block.t => if Block.type b =? 0 then Block.lines b else [])
         p)
    doc.

Definition entry_style (e : Entry) : Style := style (line_info e).

Definition Style_eq_dec (a b : Style) : {a = b} + {a <> b}.
Proof.
  decide equality; [ apply Z.eq_dec | ].
  decide equality; [ apply Bool.bool_dec | apply Z.eq_dec ].
Defined.

Definition Level_eq_dec (a b : Level) : {a = b} + {a <> b}.
Proof. decide equality. Defined.

(** The distinct styles and the distinct levels of a list of entries. *)
Definition distinct_styles (es : list Entry) : list Style :=
  nodup Style_eq_dec (map entry_style es).

Definition distinct_levels (es : list Entry) : list Level :=
  nodup Level_eq_dec (map level es).

(** [a] is before [b] in reading order: the order of [(page, bbox[1])]. *)
Definition reading_order (a b : Entry) : Prop :=
  page (line_info a) < page (line_info b)
  \/ (page (line_info a) = page (line_info b)
      /\ (bbox1 (bbox (line_info a)) <= bbox1 (bbox (line_info b)))%Q).

(** A line record of [lines_data] is made from the spans of one line. *)
Definition from_spans (l : LineInfo) : Prop :=
  exists spans,
    spans <> [] /\ dominant_style spans = Some (style l) /\
    text l = line_text spans /\ text l <> EmptyString /\
    font_size l = style_size (style l) /\ 1 <= page l.

(** [style_counts] counts each recorded line once under its style. *)
Definition scan_invariant (st : ScanState) : Prop :=
  snd st = counter_of_keys style_eqb (map style (fst st))
  /\ Forall from_spans (fst st).

(** The lines of [cands] that pass the pruning and have style [k]. *)
Definition group_of (cands : list LineInfo) (k : Style) : list LineInfo :=
  filter (fun x => passes_pruning x && style_eqb (style x) k) cands.

(** Descending by font size, ties allowed. *)
Definition size_descending (a b : Style) : Prop :=
  style_size b <= style_size a.

(** ** Sample documents

    Font flag 2 is the bit the source tests; colour is 0 throughout. *)

Definition span_of (t : string) (sz : Q) (fl : Z) : Span.t :=
  Span.mk t sz fl 0.

Definition line_at (y : Q) (spans : list Span.t) : RawLine.t :=
  RawLine.mk spans (72 # 1, y, 500 # 1, y + (12 # 1))%Q.

Definition simple_line (t : string) (sz : Q) (fl : Z) (y : Q) : RawLine.t :=
  line_at y [span_of t sz fl].

Definition text_block (ls : list RawLine.t) : Block.t := Block.mk 0 ls.

(** Numbered headings in 14pt bold, more frequent unnumbered 12pt lines,
    10pt body text; the first numbered heading ends with a period. *)
Definition election_doc : Doc :=
  [ [ text_block
        [ simple_line "Annual Report" (24 # 1) 0 (10 # 1);
          simple_line "1. Scope." (14 # 1) 2 (40 # 1);
          simple_line "alpha beta gamma" (10 # 1) 0 (60 # 1);
          simple_line "Summary" (12 # 1) 0 (80 # 1);
          simple_line "delta epsilon" (10 # 1) 0 (100 # 1);
          simple_line "2. Method" (14 # 1) 2 (120 # 1);
          simple_line "zeta eta theta" (10 # 1) 0 (140 # 1);
          simple_line "Notes" (12 # 1) 0 (160 # 1);
          simple_line "iota kappa" (10 # 1) 0 (180 # 1) ] ];
    [ text_block
        [ simple_line "Remarks" (12 # 1) 0 (30 # 1);
          simple_line "lambda mu nu" (10 # 1) 0 (50 # 1);
          simple_line "3. introduction" (14 # 1) 2 (70 # 1);
          simple_line "Appendix" (12 # 1) 0 (90 # 1) ] ] ].

(** Six heading styles: 20pt, 18pt, 16pt bold (numbered), 14pt, 12pt and
    11pt, over 10pt body text. *)
Definition ranks_doc : Doc :=
  [ [ text_block
        [ simple_line "Field Guide" (30 # 1) 0 (10 # 1);
          simple_line "Preface" (20 # 1) 0 (40 # 1);
          simple_line "first body line" (10 # 1) 0 (60 # 1);
          simple_line "Part One" (18 # 1) 0 (80 # 1);
          simple_line "1. Basics" (16 # 1) 2 (100 # 1);
          simple_line "second body line" (10 # 1) 0 (120 # 1);
          simple_line "Details" (14 # 1) 0 (140 # 1);
          simple_line "third body line" (10 # 1) 0 (160 # 1);
          simple_line "Minor" (12 # 1) 0 (180 # 1);
          simple_line "Tiny" (11 # 1) 0 (200 # 1) ] ] ].

(** The only line of the elected style ends with a period. *)
Definition pruned_h1_doc : Doc :=
  [ [ text_block
        [ simple_line "Project Report" (24 # 1) 0 (10 # 1);
          simple_line "1. Intro." (16 # 1) 2 (20 # 1);
          simple_line "body a" (10 # 1) 0 (30 # 1);
          simple_line "body b" (10 # 1) 0 (40 # 1);
          simple_line "Overview" (12 # 1) 2 (50 # 1);
          simple_line "body c" (21 # 2) 0 (60 # 1) ] ] ].

(** A line without spans, a blank line and an image block. *)
Definition blank_doc : Doc :=
  [ [ text_block [ line_at (10 # 1) []; simple_line "   " (10 # 1) 0 (20 # 1) ];
      Block.mk 1 [ simple_line "caption" (10 # 1) 0 (30 # 1) ] ];
    [] ].

(** Nothing on page 1, one line on page 2. *)
Definition late_doc : Doc :=
  [ []; [ text_block [ simple_line "Late start" (12 # 1) 0 (10 # 1) ] ] ].

(** One bold character before nineteen plain ones. *)
Definition emphasis_spans : list Span.t :=
  [ span_of "N" (11 # 1) 2; span_of "ote the plain rest." (11 # 1) 0 ].

(** Two line records of [election_doc]. *)
Definition lowercase_numbered_line : LineInfo :=
  {| text := "3. introduction"; style := (14, true, 0); font_size := 14;
     page := 2;
     bbox := (72 # 1, 70 # 1, 500 # 1, (70 # 1) + (12 # 1))%Q |}.

Definition method_line : LineInfo :=
  {| text := "2. Method"; style := (14, true, 0); font_size := 14;
     page := 1;
     bbox := (72 # 1, 120 # 1, 500 # 1, (120 # 1) + (12 # 1))%Q |}.

(** The line record of a one-span line of the sample documents. *)
Definition sample_line (t : string) (sz : Z) (bold : bool) (pg : Z) (y : Q)
  : LineInfo :=
  {| text := t; style := (sz, bold, 0); font_size := sz; page := pg;
     bbox := (72 # 1, y, 500 # 1, y + (12 # 1))%Q |}.

(** ** Further vocabulary for the outline *)

(** H1 is rank 1, H2 rank 2, H3 rank 3. *)
Definition level_rank (l : Level) : Z :=
  match l with H1 => 1 | H2 => 2 | H3 => 3 end.

(** The style of a line has a level. *)
Definition has_level (doc : Doc) (h1 : Style) (l : LineInfo) : bool :=
  match dict_get style_eqb (level_map doc h1) (style l) with
  | Some _ => true
  | None => false
  end.

(** The text, page and top edge a line of the input is recorded with. *)
Definition recorded_as (n : nat) (line : RawLine.t) : string * Z * Q :=
  (line_text (RawLine.spans line), Z.of_nat n + 1,
   bbox1 (RawLine.bbox line)).

(** The extractable lines of the text blocks in document order, each as it
    is recorded. *)
Definition extractable_lines (doc : Doc) : list (string * Z * Q) :=
  flat_map
    (fun p : nat * Page =>
       flat_map
         (fun b : Block.t =>
            if Block.type b =? 0
            then map (recorded_as (fst p)) (filter extractable (Block.lines b))
            else [])
         (snd p))
    (enumerate doc).

(** ** The batch driver of [pdfextract.py]: file names *)

(** [str.lower] on one code point below 256: A-Z and the accented capitals
    0xC0-0xDE except 0xD7 move up by 32. *)
Definition lower_char (c : ascii) : ascii :=
  let n := code c in
  if ((65 <=? n) && (n <=? 90)
      || (192 <=? n) && (n <=? 222) && negb (n =? 215))%nat
  then ascii_of_nat (n + 32)
  else c.

(** [s.lower()] *)
Fixpoint lower (s : string) : string :=
  match s with
  | EmptyString => EmptyString
  | String c r => String (lower_char c) (lower r)
  end.

(** The part of [s] before its last period, [None] without a period. *)
Fixpoint before_last_period (s : string) : option string :=
  match s with
  | EmptyString => None
  | String c r =>
      match before_last_period r with
      | Some p => Some (String c p)
      | None => if is_char "." c then Some EmptyString else None
      end
  end.

(** [s.rsplit('.', 1)[0]] *)
Definition rsplit_period_head (s : string) : string :=
  match before_last_period s with
  | Some p => p
  | None => s
  end.

(** [filename.lower().endswith(".pdf")] *)
Definition is_pdf_filename (filename : string) : bool :=
  endswith (lower filename) ".pdf".

(** [filename.rsplit('.', 1)[0] + ".json"] *)
Definition output_filename (filename : string) : string :=
  (rsplit_period_head filename ++ ".json")%string.

(** * Chunks and ranking of [round 2/pyth.py]

    The decoded document is the input again.  A block is the list of its
    lines when it has the key "lines"; a page is the list of its blocks, or
    [None] when reading the page raises, which both passes answer with
    [continue].  [doc_name] stands for [os.path.basename(doc_path)].  The
    scores of the chunks come from the embedding model and are taken as
    given. *)

Module Pyth.

Definition Block : Type := option (list RawLine.t).
Definition Page : Type := option (list Block).
Definition Doc : Type := list Page.

Module Chunk.
Record t : Type := mk {
  document : string;
  page_number : Z;
  section_title : string;
  text : string
}.
End Chunk.

(** *** [parse_pdf_to_structured_chunks] *)

(** [font_counts[size] = font_counts.get(size, 0) + 1] *)
Definition count_span (fc : @Counter Z) (s : Span.t) : @Counter Z :=
  counter_add Z.eqb (py_round (Span.size s)) 1 fc.

Definition count_line (fc : @Counter Z) (l : RawLine.t) : @Counter Z :=
  fold_left count_span (RawLine.spans l) fc.

Definition count_block (fc : @Counter Z) (b : Block) : @Counter Z :=
  match b with
  | Some ls => fold_left count_line ls fc
  | None => fc
  end.

Definition count_page (fc : @Counter Z) (p : Page) : @Counter Z :=
  match p with
  | Some bs => fold_left count_block bs fc
  | None => fc
  end.

Definition font_counts (doc : Doc) : @Counter Z :=
  fold_left count_page doc [].

(** Descending by count. *)
Definition more_frequent (a b : Z * nat) : bool := (snd b <? snd a)%nat.

Definition sorted_fonts (doc : Doc) : list (Z * nat) :=
  stable_sort more_frequent (font_counts doc).

(** [sorted_fonts[0][0]], [None] when there is no span. *)
Definition normal_font_size (doc : Doc) : option Z :=
  match sorted_fonts doc with
  | x :: _ => Some (fst x)
  | [] => None
  end.

Definition header_font_size_threshold (normal : Z) : Z := normal + 2.

Definition is_header (threshold : Z) (line_spans : list Span.t) : bool :=
  existsb (fun s => threshold <=? py_round (Span.size s)) line_spans.

(** ["".join(...).strip()] *)
Definition line_text (line_spans : list Span.t) : string :=
  strip (String.concat "" (map Span.text line_spans)).

(** The state of the second pass: [chunks] and [current_section_title]. *)
Definition ChunkState : Type := list Chunk.t * string.

Definition chunk_line (doc_name : string) (threshold : Z) (page_num : nat)
           (st : ChunkState) (l : RawLine.t) : ChunkState :=
  let hdr := is_header threshold (RawLine.spans l) in
  let txt := line_text (RawLine.spans l) in
  let cur := if hdr && negb (String.eqb txt EmptyString) then txt
             else snd st in
  if negb (String.eqb txt EmptyString)
  then (fst st ++ [ {| Chunk.document := doc_name;
                       Chunk.page_number := Z.of_nat page_num + 1;
                       Chunk.section_title := cur;
                       Chunk.text := txt |} ],
        cur)
  else (fst st, cur).

Definition chunk_block (doc_name : string) (threshold : Z) (page_num : nat)
           (st : ChunkState) (b : Block) : ChunkState :=
  match b with
  | Some ls => fold_left (chunk_line doc_name threshold page_num) ls st
  | None => st
  end.

Definition chunk_page (doc_name : string) (threshold : Z)
           (st : ChunkState) (p : nat * Page) : ChunkState :=
  match snd p with
  | Some bs => fold_left (chunk_block doc_name threshold (fst p)) bs st
  | None => st
  end.

Definition parse_pdf_to_structured_chunks (doc_name : string) (doc : Doc)
  : list Chunk.t :=
  match normal_font_size doc with
  | None => []
  | Some normal =>
      fst (fold_left
             (chunk_page doc_name (header_font_size_threshold normal))
             (enumerate doc) ([], doc_name))
  end.

(** The rounded sizes of all spans in reading order. *)
Definition span_sizes (doc : Doc) : list Z :=
  flat_map
    (fun p : Page =>
       match p with
       | Some bs =>
           flat_map
             (fun b : Block =>
                match b with
                | Some ls =>
                    flat_map
                      (fun l => map (fun s => py_round (Span.size s))
                                    (RawLine.spans l))
                      ls
                | None => []
                end)
             bs
       | None => []
       end)
    doc.

(** *** [parse_txt_to_structured_chunks] *)

Definition newline : ascii := ascii_of_nat 10.

(** Put [c] in front of the first piece. *)
Definition push_char (c : ascii) (pieces : list string) : list string :=
  match pieces with
  | h :: t => String c h :: t
  | [] => [String c EmptyString]
  end.

(** [content.split('\n\n')]: the pieces between the occurrences of two
    newlines, found from the left and not overlapping. *)
Fixpoint split_paragraphs (s : string) : list string :=
  match s with
  | EmptyString => [EmptyString]
  | String c r =>
      match r with
      | String d r' =>
          if Ascii.eqb c newline && Ascii.eqb d newline
          then EmptyString :: split_paragraphs r'
          else push_char c (split_paragraphs r)
      | EmptyString => push_char c (split_paragraphs r)
      end
  end.

Definition txt_chunk (doc_name : string) (para : string) : list Chunk.t :=
  let cleaned_para := strip para in
  if String.eqb cleaned_para EmptyString then []
  else [ {| Chunk.document := doc_name; Chunk.page_number := 1;
            Chunk.section_title := "Content";
            Chunk.text := cleaned_para |} ].

Definition parse_txt_to_structured_chunks (doc_name : string)
           (content : string) : list Chunk.t :=
  flat_map (txt_chunk doc_name) (split_paragraphs content).

(** *** The ranking of [run_analysis] *)

(** A chunk with its ['score']. *)
Module Scored.
Record t : Type := mk { chunk : Chunk.t; score : Q }.
End Scored.

(** A value of the dictionary [sections]. *)
Module Sect.
Record t : Type := mk {
  document : string;
  section_title : string;
  page_number : Z;
  score : Q
}.
End Sect.

Module ExtractedSection.
Record t : Type := mk {
  document : string;
  section_title : string;
  importance_rank : Z;
  page_number : Z
}.
End ExtractedSection.

Module Subsection.
Record t : Type := mk {
  document : string;
  refined_text : string;
  page_number : Z
}.
End Subsection.

Definition SectionKey : Type := string * string.

Definition key_eqb (a b : SectionKey) : bool :=
  String.eqb (fst a) (fst b) && String.eqb (snd a) (snd b).

Definition section_key (c : Scored.t) : SectionKey :=
  (Chunk.document (Scored.chunk c), Chunk.section_title (Scored.chunk c)).

Definition section_of (c : Scored.t) : Sect.t :=
  {| Sect.document := Chunk.document (Scored.chunk c);
     Sect.section_title := Chunk.section_title (Scored.chunk c);
     Sect.page_number := Chunk.page_number (Scored.chunk c);
     Sect.score := Scored.score c |}.

(** Descending by score. *)
Definition higher_score (a b : Scored.t) : bool :=
  Qltb (Scored.score b) (Scored.score a).

Definition higher_section (a b : Sect.t) : bool :=
  Qltb (Sect.score b) (Sect.score a).

Definition ranked_subsections (all_chunks : list Scored.t) : list Scored.t :=
  stable_sort higher_score all_chunks.

(** [if section_key not in sections or chunk['score'] >
    sections[section_key]['score']: sections[section_key] = ...] *)
Definition add_section (sections : @dict SectionKey Sect.t) (c : Scored.t)
  : @dict SectionKey Sect.t :=
  match dict_get key_eqb sections (section_key c) with
  | None => dict_set key_eqb (section_key c) (section_of c) sections
  | Some old =>
      if Qltb (Sect.score old) (Scored.score c)
      then dict_set key_eqb (section_key c) (section_of c) sections
      else sections
  end.

Definition sections (all_chunks : list Scored.t) : @dict SectionKey Sect.t :=
  fold_left add_section all_chunks [].

Definition ranked_sections (all_chunks : list Scored.t) : list Sect.t :=
  stable_sort higher_section (map snd (sections all_chunks)).

Definition extracted_sections (all_chunks : list Scored.t)
  : list ExtractedSection.t :=
  map (fun p : nat * Sect.t =>
         {| ExtractedSection.document := Sect.document (snd p);
            ExtractedSection.section_title := Sect.section_title (snd p);
            ExtractedSection.importance_rank := Z.of_nat (fst p) + 1;
            ExtractedSection.page_number := Sect.page_number (snd p) |})
      (enumerate (firstn 5 (ranked_sections all_chunks))).

Definition subsection_of (ss : Scored.t) : Subsection.t :=
  {| Subsection.document := Chunk.document (Scored.chunk ss);
     Subsection.refined_text := Chunk.text (Scored.chunk ss);
     Subsection.page_number := Chunk.page_number (Scored.chunk ss) |}.

Definition subsection_analysis (all_chunks : list Scored.t)
  : list Subsection.t :=
  map subsection_of (firstn 5 (ranked_subsections all_chunks)).

(** The two ranked lists of [output_data]; [None] when there is no chunk
    and the function returns without writing. *)
Definition run_analysis (all_chunks : list Scored.t)
  : option (list ExtractedSection.t * list Subsection.t) :=
  match all_chunks with
  | [] => None
  | _ :: _ =>
      Some (extracted_sections all_chunks, subsection_analysis all_chunks)
  end.

(** *** Vocabulary for the chunks *)

(** The joined text of the line is not blank. *)
Definition nonblank (l : RawLine.t) : bool :=
  negb (String.eqb (line_text (RawLine.spans l)) EmptyString).

Definition tag_line (page_num : nat) (l : RawLine.t) : Z * list Span.t :=
  (Z.of_nat page_num + 1, RawLine.spans l).

(** The non-blank lines of the readable pages in reading order, each with
    the 1-based number of its page and its spans. *)
Definition nonblank_lines (ps : list (nat * Page)) : list (Z * list Span.t) :=
  flat_map
    (fun p : nat * Page =>
       match snd p with
       | Some bs =>
           flat_map
             (fun b : Block =>
                match b with
                | Some ls => map (tag_line (fst p)) (filter nonblank ls)
                | None => []
                end)
             bs
       | None => []
       end)
    ps.

(** The section title after a non-blank line. *)
Definition next_section (threshold : Z) (cur : string) (x : Z * list Span.t)
  : string :=
  if is_header threshold (snd x) then line_text (snd x) else cur.

(** The chunks of a list of non-blank lines, [cur] being the section
    title before the first of them. *)
Fixpoint assemble (doc_name : string) (threshold : Z) (cur : string)
         (ls : list (Z * list Span.t)) : list Chunk.t :=
  match ls with
  | [] => []
  | x :: r =>
      {| Chunk.document := doc_name; Chunk.page_number := fst x;
         Chunk.section_title := next_section threshold cur x;
         Chunk.text := line_text (snd x) |}
      :: assemble doc_name threshold (next_section threshold cur x) r
  end.

(** The section title in force after the first [i] chunks. *)
Definition section_before (doc_name : string) (cs : list Chunk.t) (i : nat)
  : string :=
  match i with
  | O => doc_name
  | S j => match nth_error cs j with
           | Some c => Chunk.section_title c
           | None => doc_name
           end
  end.

(** [s] has two newlines in a row. *)
Fixpoint has_paragraph_break (s : string) : bool :=
  match s with
  | EmptyString => false
  | String c r =>
      match r with
      | String d _ =>
          (Ascii.eqb c newline && Ascii.eqb d newline)
          || has_paragraph_break r
      | EmptyString => false
      end
  end.

Definition paragraph_break : string :=
  String newline (String newline EmptyString).

(** The key of a section of the ranking and of an extracted section. *)
Definition sect_key (s : Sect.t) : SectionKey :=
  (Sect.document s, Sect.section_title s).

Definition extracted_key (e : ExtractedSection.t) : SectionKey :=
  (ExtractedSection.document e, ExtractedSection.section_title e).

End Pyth.

Definition as_recorded (l : LineInfo) : string * Z * Q :=
  (text l, page l, bbox1 (bbox l)).

(** The pages of the lines recorded so far, [n] pages being read. *)
Definition pages_in_order (n : Z) (st : ScanState) : Prop :=
  Forall (fun l => 1 <= page l <= n) (fst st)
  /\ StronglySorted (fun a b => page a <= page b) (fst st).

(** What the dictionary [sections] holds after the chunks of [l]. *)
Definition sections_invariant (l : list Pyth.Scored.t)
           (d : @dict Pyth.SectionKey Pyth.Sect.t) : Prop :=
  (forall key s,
      dict_get Pyth.key_eqb d key = Some s ->
      exists pre c post,
        l = pre ++ c :: post /\ Pyth.section_key c = key
        /\ s = Pyth.section_of c
        /\ (forall x, In x pre -> Pyth.section_key x = key ->
                      (Pyth.Scored.score x < Pyth.Scored.score c)%Q)
        /\ (forall x, In x post -> Pyth.section_key x = key ->
                      (Pyth.Scored.score x <= Pyth.Scored.score c)%Q))
  /\ (forall key, dict_get Pyth.key_eqb d key = None ->
                  forall x, In x l -> Pyth.section_key x <> key)
  /\ NoDup (keys d).

(** ** Sample inputs of [pyth.py] *)

(** A header, body lines, a block without lines, an unreadable page, and
    on page 3 a blank oversized line and a second header. *)
Definition chunk_doc : Pyth.Doc :=
  [ Some [ Some [ simple_line "Intro" (14 # 1) 0 (10 # 1);
                  simple_line "body one" (10 # 1) 0 (30 # 1);
                  simple_line "body two" (10 # 1) 0 (50 # 1) ];
           None ];
    None;
    Some [ Some [ simple_line "more body" (10 # 1) 0 (10 # 1);
                  simple_line "   " (20 # 1) 0 (30 # 1);
                  simple_line "Next" (12 # 1) 0 (50 # 1);
                  simple_line "tail" (10 # 1) 0 (70 # 1) ] ] ].

(** Two paragraphs around a blank one. *)
Definition sample_content : string :=
  (" first " ++ Pyth.paragraph_break ++ "  " ++ Pyth.paragraph_break
   ++ "second one")%string.

Definition scored (doc title txt : string) (pg : Z) (sc : Q) : Pyth.Scored.t :=
  Pyth.Scored.mk (Pyth.Chunk.mk doc pg title txt) sc.

(** Section "S" of document "a" reaches its best score 3/4 first on
    page 2. *)
Definition sample_chunks : list Pyth.Scored.t :=
  [ scored "a" "S" "t1" 1 (1 # 2); scored "a" "S" "t2" 2 (3 # 4);
    scored "b" "S" "t3" 1 (3 # 4); scored "a" "S" "t4" 3 (3 # 4);
    scored "a" "T" "t5" 3 (1 # 10) ].

(** ** Character counts of a line, stated on the spans themselves *)

(** The (rounded size, bold, colour) triple of a span, bold being bit 1 of
    the font flags. *)
Definition style_of_span (sp : Span.t) : Style :=
  (py_round (Span.size sp), Z.testbit (Span.flags sp) 1, Span.color sp).

(** The number of characters of the spans of a line whose triple is [t]. *)
Fixpoint style_chars (t : Style) (spans : list Span.t) : nat :=
  match spans with
  | [] => 0
  | sp :: r =>
      (if Style_eq_dec (style_of_span sp) t
       then String.length (Span.text sp) else 0)
      + style_chars t r
  end%nat.

(** The number of characters of the spans whose bold bit is [b]. *)
Fixpoint chars_with_bold (b : bool) (spans : list Span.t) : nat :=
  match spans with
  | [] => 0
  | sp :: r =>
      (if Bool.eqb (Z.testbit (Span.flags sp) 1) b
       then String.length (Span.text sp) else 0)
      + chars_with_bold b r
  end%nat.

Definition plain_chars (spans : list Span.t) : nat :=
  chars_with_bold false spans.

Definition bold_chars (spans : list Span.t) : nat :=
  chars_with_bold true spans.

(** Six plain characters in two colours and four bold ones. *)
Definition mixed_spans : list Span.t :=
  [ Span.mk "abc" (10 # 1) 0 0; Span.mk "def" (10 # 1) 0 255;
    Span.mk "ghij" (10 # 1) 2 0 ].

(** * Properties *)

(** ** Dictionaries *)

Section DictFacts.
Context {K V : Type}.
Variable eqb : K -> K -> bool.
Hypothesis eqb_eq : forall a b, eqb a b = true <-> a = b.

Lemma eqb_refl_true (a : K) : eqb a a = true.
Proof. now apply eqb_eq. Qed.

Lemma eqb_false_neq (a b : K) : eqb a b = false <-> a <> b.
Proof.
  split.
  - intros E H. apply eqb_eq in H. congruence.
  - intros H. destruct (eqb a b) eqn:E; [ | reflexivity ].
    apply eqb_eq in E. contradiction.
Qed.

Lemma dict_get_update (k : K) (f : option V -> V) (d : @dict K V) (k' : K) :
  dict_get eqb (dict_update eqb k f d) k' =
  if eqb k' k then Some (f (dict_get eqb d k)) else dict_get eqb d k'.
Proof.
  induction d as [ | [k1 v] r IH ]; simpl.
  - reflexivity.
  - destruct (eqb k k1) eqn:E; simpl.
    + apply eqb_eq in E. subst k1.
      destruct (eqb k' k); reflexivity.
    + rewrite IH. destruct (eqb k' k) eqn:E'; [ | reflexivity ].
      apply eqb_eq in E'. subst k'. rewrite E. reflexivity.
Qed.

Lemma dict_get_set (k : K) (v : V) (d : @dict K V) (k' : K) :
  dict_get eqb (dict_set eqb k v d) k' =
  if eqb k' k then Some v else dict_get eqb d k'.
Proof. unfold dict_set. apply dict_get_update. Qed.

Lemma dict_get_none (d : @dict K V) (k : K) :
  dict_get eqb d k = None <-> ~ In k (keys d).
Proof.
  induction d as [ | [k1 v] r IH ]; simpl.
  - tauto.
  - destruct (eqb k k1) eqn:E.
    + apply eqb_eq in E. split; [ discriminate | intros H; exfalso; auto ].
    + apply eqb_false_neq in E. rewrite IH. split.
      * intros H [H1 | H1]; [ congruence | auto ].
      * intros H H1. apply H. now right.
Qed.

Lemma dict_get_in (d : @dict K V) (k : K) (v : V) :
  dict_get eqb d k = Some v -> In (k, v) d.
Proof.
  induction d as [ | [k1 v1] r IH ]; simpl; [ discriminate | ].
  destruct (eqb k k1) eqn:E.
  - apply eqb_eq in E. intros H. left. congruence.
  - intros H. right. auto.
Qed.

Lemma in_dict_get (d : @dict K V) (k : K) (v : V) :
  NoDup (keys d) -> In (k, v) d -> dict_get eqb d k = Some v.
Proof.
  induction d as [ | [k1 v1] r IH ]; simpl; [ tauto | ].
  intros ND [H | H].
  - inversion H; subst. now rewrite eqb_refl_true.
  - inversion ND as [ | ? ? Hn ND' ]; subst.
    destruct (eqb k k1) eqn:E.
    + apply eqb_eq in E. subst k1. exfalso. apply Hn.
      change k with (fst (k, v)). now apply in_map.
    + auto.
Qed.

Lemma keys_dict_update_in (k : K) (f : option V -> V) (d : @dict K V) :
  In k (keys d) -> keys (dict_update eqb k f d) = keys d.
Proof.
  induction d as [ | [k1 v] r IH ]; simpl; [ tauto | ].
  intros H. destruct (eqb k k1) eqn:E; simpl; [ reflexivity | ].
  apply eqb_false_neq in E. f_equal. apply IH.
  destruct H; [ congruence | assumption ].
Qed.

Lemma keys_dict_update_new (k : K) (f : option V -> V) (d : @dict K V) :
  ~ In k (keys d) -> keys (dict_update eqb k f d) = keys d ++ [k].
Proof.
  induction d as [ | [k1 v] r IH ]; simpl; [ reflexivity | ].
  intros H. destruct (eqb k k1) eqn:E; simpl.
  - apply eqb_eq in E. exfalso. auto.
  - f_equal. apply IH. auto.
Qed.

Lemma in_keys_dec (k : K) (l : list K) : In k l \/ ~ In k l.
Proof.
  induction l as [ | a l IH ]; simpl; [ tauto | ].
  destruct (eqb a k) eqn:E.
  - apply eqb_eq in E. auto.
  - apply eqb_false_neq in E. tauto.
Qed.

Lemma keys_dict_update_iff (k : K) (f : option V -> V) (d : @dict K V) (x : K) :
  In x (keys (dict_update eqb k f d)) <-> x = k \/ In x (keys d).
Proof.
  destruct (in_keys_dec k (keys d)) as [H | H].
  - rewrite keys_dict_update_in by assumption. split; [ tauto | ].
    intros [-> | H']; assumption.
  - rewrite keys_dict_update_new by assumption. rewrite in_app_iff. simpl.
    split; [ intros [H' | [H' | []]]; auto | intros [H' | H']; auto ].
Qed.

Lemma keys_dict_update_nodup (k : K) (f : option V -> V) (d : @dict K V) :
  NoDup (keys d) -> NoDup (keys (dict_update eqb k f d)).
Proof.
  intros ND. destruct (in_keys_dec k (keys d)) as [H | H].
  - now rewrite keys_dict_update_in.
  - rewrite keys_dict_update_new by assumption.
    apply NoDup_rev in ND. rewrite <- (rev_involutive (keys d ++ [k])).
    apply NoDup_rev. rewrite rev_app_distr. simpl. constructor.
    + now rewrite <- in_rev.
    + assumption.
Qed.

(** Where an entry of the updated dictionary comes from: an entry of the
    old one at the same place, or the new key at the end. *)
Lemma dict_update_split (k : K) (f : option V -> V) (d : @dict K V)
      (pre' : @dict K V) (k0 : K) (v0 : V) (post' : @dict K V) :
  dict_update eqb k f d = pre' ++ (k0, v0) :: post' ->
  (exists pre v post, d = pre ++ (k0, v) :: post /\ keys pre = keys pre')
  \/ (k0 = k /\ keys pre' = keys d).
Proof.
  revert pre'. induction d as [ | [k1 v1] r IH ]; simpl; intros pre' H.
  - right. destruct pre' as [ | a [ | b pre'' ] ]; simpl in H; try discriminate.
    inversion H; subst. split; reflexivity.
  - destruct (eqb k k1) eqn:E.
    + left. destruct pre' as [ | a pre'' ]; simpl in H; inversion H; subst.
      * exists [], v1, post'. split; reflexivity.
      * exists ((k1, v1) :: pre''), v0, post'. split; reflexivity.
    + destruct pre' as [ | a pre'' ]; simpl in H;
        inversion H as [[Ha Hr]]; subst.
      * left. exists [], v0, r. split; reflexivity.
      * destruct (IH pre'' Hr) as [(pre & v & post & -> & Hk) | [-> Hk]].
        -- left. exists ((k1, v1) :: pre), v, post. simpl. split; congruence.
        -- right. simpl. split; congruence.
Qed.
End DictFacts.

(** ** Counters and [most_common(1)] *)

Section CounterFacts.
Context {K : Type}.
Variable eqb : K -> K -> bool.
Hypothesis eqb_eq : forall a b, eqb a b = true <-> a = b.

Lemma weight_app (k : K) (l1 l2 : list (K * nat)) :
  weight eqb k (l1 ++ l2) = (weight eqb k l1 + weight eqb k l2)%nat.
Proof.
  induction l1 as [ | x l1 IH ]; simpl; [ reflexivity | ].
  rewrite IH. lia.
Qed.

Lemma weight_absent (k : K) (l : list (K * nat)) :
  ~ In k (map fst l) -> weight eqb k l = 0%nat.
Proof.
  induction l as [ | x l IH ]; simpl; [ reflexivity | ].
  intros H. destruct (eqb k (fst x)) eqn:E.
  - apply eqb_eq in E. exfalso. auto.
  - rewrite IH; auto.
Qed.

Lemma counter_of_snoc (l : list (K * nat)) (x : K * nat) :
  counter_of eqb (l ++ [x])
  = counter_add eqb (fst x) (snd x) (counter_of eqb l).
Proof. unfold counter_of. now rewrite fold_left_app. Qed.

Lemma counter_of_keys_iff (l : list (K * nat)) (k : K) :
  In k (keys (counter_of eqb l)) <-> In k (map fst l).
Proof.
  induction l as [ | x l IH ] using rev_ind; [ simpl; tauto | ].
  rewrite counter_of_snoc. unfold counter_add.
  rewrite (keys_dict_update_iff eqb eqb_eq), IH, map_app, in_app_iff.
  simpl. intuition congruence.
Qed.

Lemma counter_of_nodup (l : list (K * nat)) : NoDup (keys (counter_of eqb l)).
Proof.
  induction l as [ | x l IH ] using rev_ind; [ constructor | ].
  rewrite counter_of_snoc. now apply (keys_dict_update_nodup eqb eqb_eq).
Qed.

(** The counter holds the cumulative weight of each key. *)
Lemma counter_of_get (l : list (K * nat)) (k : K) (v : nat) :
  dict_get eqb (counter_of eqb l) k = Some v -> v = weight eqb k l.
Proof.
  revert v. induction l as [ | x l IH ] using rev_ind; intros v;
    [ discriminate | ].
  rewrite counter_of_snoc. unfold counter_add.
  rewrite (dict_get_update eqb eqb_eq), weight_app. simpl.
  destruct (eqb k (fst x)) eqn:E.
  - apply eqb_eq in E. subst k. intros H. inversion H; subst v; clear H.
    destruct (dict_get eqb (counter_of eqb l) (fst x)) as [m | ] eqn:G.
    + rewrite (IH m eq_refl). lia.
    + apply (dict_get_none eqb eqb_eq) in G.
      rewrite counter_of_keys_iff in G. rewrite (weight_absent _ _ G). lia.
  - intros H. rewrite (IH v H). lia.
Qed.

Lemma counter_of_entry (l : list (K * nat)) (k : K) (v : nat) :
  In (k, v) (counter_of eqb l) -> v = weight eqb k l.
Proof.
  intros H. apply counter_of_get.
  apply (in_dict_get eqb eqb_eq); [ apply counter_of_nodup | assumption ].
Qed.

(** Every pair seen before the first pair of a key has its key earlier in
    the counter. *)
Lemma counter_of_order (l : list (K * nat)) :
  forall cpre k v cpost,
    counter_of eqb l = cpre ++ (k, v) :: cpost ->
    exists pre x post,
      l = pre ++ x :: post /\ fst x = k /\
      forall y, In y pre -> In (fst y) (keys cpre).
Proof.
  induction l as [ | x l IH ] using rev_ind; intros cpre k v cpost H.
  - destruct cpre; discriminate.
  - rewrite counter_of_snoc in H. unfold counter_add in H.
    apply dict_update_split in H.
    destruct H as [(pre0 & v1 & post0 & Hc & Hk) | [-> Hk]].
    + destruct (IH _ _ _ _ Hc) as (pre & y & post & -> & Hy & Hpre).
      exists pre, y, (post ++ [x]). rewrite <- app_assoc. simpl.
      repeat split; auto. intros z Hz. rewrite <- Hk. auto.
    + exists l, x, []. repeat split; auto.
      intros z Hz. rewrite Hk. apply counter_of_keys_iff.
      now apply in_map.
Qed.

(** [max_first] returns the first entry with the greatest count. *)
Lemma max_first_split (c : @Counter K) :
  forall best,
    exists cpre cpost,
      best :: c = cpre ++ max_first best c :: cpost /\
      (forall y, In y cpre -> (snd y < snd (max_first best c))%nat) /\
      (forall y, In y cpost -> (snd y <= snd (max_first best c))%nat) /\
      (snd best <= snd (max_first best c))%nat.
Proof.
  induction c as [ | x c IH ]; intros best; simpl.
  - exists [], []. repeat split; simpl; auto; tauto.
  - destruct (snd best <? snd x)%nat eqn:E.
    + apply Nat.ltb_lt in E.
      destruct (IH x) as (cpre & cpost & Hs & Hpre & Hpost & Hx).
      exists (best :: cpre), cpost. rewrite Hs. repeat split; auto; try lia.
      intros y [<- | Hy]; [ lia | auto ].
    + apply Nat.ltb_ge in E.
      destruct (IH best) as (cpre & cpost & Hs & Hpre & Hpost & Hx).
      destruct cpre as [ | b cpre ]; simpl in Hs; injection Hs as Hb Hc.
      * exists [], (x :: c). rewrite <- Hb in Hpost |- *.
        repeat split; simpl; auto; try tauto.
        intros y [<- | Hy]; [ lia | ].
        apply Hpost. rewrite <- Hc. assumption.
      * subst b. exists (best :: x :: cpre), cpost.
        split; [ simpl; do 2 f_equal; exact Hc | ].
        repeat split; auto.
        intros y [<- | [<- | Hy]].
        -- apply Hpre. now left.
        -- assert (snd best < snd (max_first best c))%nat
             by (apply Hpre; now left). lia.
        -- apply Hpre. now right.
Qed.

(** [most_common(1)] of the counter of a non-empty list is the heaviest
    key, the first seen among the heaviest. *)
Lemma most_common1_heaviest (l : list (K * nat)) :
  l <> [] ->
  exists s, most_common1 (counter_of eqb l) = Some s /\
            heaviest_first_seen eqb l s.
Proof.
  intros Hl.
  destruct (counter_of eqb l) as [ | b c ] eqn:Ec.
  - exfalso. destruct l as [ | x l ]; [ congruence | ].
    assert (H : In (fst x) (keys (counter_of eqb (x :: l))))
      by (apply counter_of_keys_iff; now left).
    rewrite Ec in H. exact H.
  - simpl. exists (fst (max_first b c)). split; [ reflexivity | ].
    destruct (max_first_split c b) as (cpre & cpost & Hs & Hpre & Hpost & _).
    destruct (max_first b c) as [s v] eqn:Em. simpl in *.
    assert (Hall : forall k n, In (k, n) (b :: c) -> n = weight eqb k l)
      by (intros k n H; apply counter_of_entry; now rewrite Ec).
    assert (Hv : v = weight eqb s l)
      by (apply Hall; rewrite Hs; apply in_elt).
    rewrite <- Ec in Hs.
    destruct (counter_of_order l _ _ _ _ Hs)
      as (pre & x & post & -> & Hx & Hord).
    exists pre, x, post. repeat split; auto.
    + intros y Hy. apply Hord in Hy. unfold keys in Hy.
      apply in_map_iff in Hy. destruct Hy as ([k n] & Hk & Hin).
      simpl in Hk. subst k. specialize (Hpre _ Hin). simpl in Hpre.
      rewrite <- Hv.
      rewrite <- (Hall (fst y) n); [ assumption | ].
      rewrite <- Ec, Hs. apply in_or_app. now left.
    + intros t. rewrite <- Hv.
      destruct (in_keys_dec eqb eqb_eq t (map fst (pre ++ x :: post)))
        as [Ht | Ht].
      * apply counter_of_keys_iff in Ht. unfold keys in Ht.
        apply in_map_iff in Ht. destruct Ht as ([k n] & Hk & Hin).
        simpl in Hk. subst k.
        rewrite <- (Hall t n) by (now rewrite <- Ec).
        rewrite Hs in Hin. apply in_app_or in Hin.
        destruct Hin as [Hin | [Hin | Hin]].
        -- specialize (Hpre _ Hin). simpl in Hpre. lia.
        -- inversion Hin. lia.
        -- specialize (Hpost _ Hin). simpl in Hpost. lia.
      * rewrite (weight_absent _ _ Ht). lia.
Qed.

Lemma weight_ones (k : K) (l : list K) :
  weight eqb k (map (fun a => (a, 1%nat)) l) = occurrences eqb k l.
Proof.
  unfold occurrences. induction l as [ | a l IH ]; simpl; [ reflexivity | ].
  rewrite IH. destruct (eqb k a); reflexivity.
Qed.

(** [Counter(l).most_common(1)] is the most frequent element of a non-empty
    [l], the first seen among the most frequent. *)
Lemma most_common1_most_frequent (l : list K) :
  l <> [] ->
  exists s, most_common1 (counter_of_keys eqb l) = Some s /\
            most_frequent_first_seen eqb l s.
Proof.
  intros Hl. unfold counter_of_keys.
  destruct (most_common1_heaviest (map (fun a => (a, 1%nat)) l))
    as (s & Hs & pre & x & post & Hsplit & Hx & Hpre & Hall).
  { destruct l; [ congruence | discriminate ]. }
  exists s. split; [ assumption | ].
  apply map_eq_app in Hsplit.
  destruct Hsplit as (lpre & lrest & -> & Hp & Hr).
  destruct lrest as [ | a lpost ]; [ discriminate | ].
  simpl in Hr. inversion Hr as [[Ha Hpost]]. subst x. simpl in Hx. subst a.
  exists lpre, lpost. split; [ reflexivity | ]. split.
  - intros t Ht. rewrite <- !weight_ones.
    apply (Hpre (t, 1%nat)). rewrite <- Hp.
    now apply (in_map (fun a => (a, 1%nat))).
  - intros t. rewrite <- !weight_ones. apply Hall.
Qed.
End CounterFacts.

(** ** Stable sorting *)

Section SortFacts.
Context {A : Type}.
Variable lt : A -> A -> bool.
Hypothesis lt_asym : forall a b, lt a b = true -> lt b a = false.
Hypothesis ge_trans :
  forall a b c, lt b a = false -> lt c b = false -> lt c a = false.

Lemma insert_sorted_perm (x : A) (l : list A) :
  Permutation (x :: l) (insert_sorted lt x l).
Proof.
  induction l as [ | y r IH ]; simpl.
  - apply Permutation_refl.
  - destruct (lt y x).
    + eapply perm_trans; [ apply perm_swap | ]. now apply perm_skip.
    + apply Permutation_refl.
Qed.

Lemma stable_sort_perm (l : list A) : Permutation l (stable_sort lt l).
Proof.
  induction l as [ | x l IH ]; simpl.
  - apply perm_nil.
  - eapply perm_trans; [ apply perm_skip, IH | apply insert_sorted_perm ].
Qed.

Lemma stable_sort_in (l : list A) (x : A) :
  In x (stable_sort lt l) <-> In x l.
Proof.
  split; apply Permutation_in;
    [ apply Permutation_sym | ]; apply stable_sort_perm.
Qed.

Lemma insert_sorted_sorted (x : A) (l : list A) :
  StronglySorted (in_order lt) l ->
  StronglySorted (in_order lt) (insert_sorted lt x l).
Proof.
  induction 1 as [ | y r Hs IH Hy ]; simpl.
  - repeat constructor.
  - destruct (lt y x) eqn:E.
    + constructor; [ assumption | ].
      rewrite Forall_forall in Hy |- *. intros z Hz.
      apply (Permutation_in _ (Permutation_sym (insert_sorted_perm x r))) in Hz.
      destruct Hz as [<- | Hz]; [ now apply lt_asym | auto ].
    + constructor; [ now constructor | ].
      constructor; [ exact E | ].
      rewrite Forall_forall in Hy |- *. intros z Hz.
      unfold in_order. apply (ge_trans x y z); [ exact E | now apply Hy ].
Qed.

Lemma stable_sort_sorted (l : list A) :
  StronglySorted (in_order lt) (stable_sort lt l).
Proof.
  induction l as [ | x l IH ]; simpl.
  - constructor.
  - now apply insert_sorted_sorted.
Qed.

(** In a sorted list every element is in order with every later one. *)
Lemma sorted_pairwise (l : list A) :
  StronglySorted (in_order lt) l ->
  forall pre a mid b post, l = pre ++ a :: mid ++ b :: post -> in_order lt a b.
Proof.
  induction 1 as [ | y r Hs IH Hy ]; intros pre a mid b post E.
  - destruct pre; discriminate.
  - destruct pre as [ | p pre ]; simpl in E; injection E as E1 E2.
    + subst y r. rewrite Forall_forall in Hy. apply Hy.
      apply in_or_app. right. now left.
    + eapply IH. exact E2.
Qed.

(** The head of the sorted list is the first element of the input that no
    other element has to precede. *)
Lemma stable_sort_head (l : list A) (h : A) (t : list A) :
  stable_sort lt l = h :: t ->
  exists pre post,
    l = pre ++ h :: post /\
    (forall x, In x pre -> lt h x = true) /\
    (forall x, In x post -> lt x h = false).
Proof.
  revert h t. induction l as [ | x l IH ]; simpl; intros h t E;
    [ discriminate | ].
  destruct (stable_sort lt l) as [ | h' t' ] eqn:Es.
  - simpl in E. injection E as -> <-.
    assert (l = []) as ->.
    { apply Permutation_nil. rewrite <- Es.
      apply Permutation_sym, stable_sort_perm. }
    exists [], []. repeat split; simpl; tauto.
  - destruct (IH h' t' eq_refl) as (pre & post & -> & Hpre & Hpost).
    simpl in E. destruct (lt h' x) eqn:Ex; injection E as <- <-.
    + exists (x :: pre), post. repeat split; auto.
      intros y [<- | Hy]; auto.
    + exists [], (pre ++ h' :: post). repeat split; simpl; try tauto.
      intros y Hy. apply in_app_or in Hy. destruct Hy as [Hy | [<- | Hy]].
      * apply (ge_trans x h' y); [ exact Ex | ]. apply lt_asym. auto.
      * exact Ex.
      * apply (ge_trans x h' y); [ exact Ex | auto ].
Qed.
End SortFacts.

(** ** Styles *)

Lemma style_eqb_eq (a b : Style) : style_eqb a b = true <-> a = b.
Proof.
  destruct a as [[s1 b1] c1], b as [[s2 b2] c2]. simpl.
  rewrite !andb_true_iff, !Z.eqb_eq, Bool.eqb_true_iff.
  split.
  - intros [[-> ->] ->]. reflexivity.
  - intros H. inversion H. auto.
Qed.

Lemma style_differs_some (s b : Style) :
  style_differs s (Some b) = true <-> s <> b.
Proof.
  simpl. rewrite negb_true_iff. apply (eqb_false_neq style_eqb style_eqb_eq).
Qed.

(** ** The numbered-heading patterns *)

Lemma space_or_upper_not_digit (c : ascii) :
  isspace c || isupper_AZ c = true -> isdigit c = false.
Proof.
  unfold isspace, isupper_AZ, isdigit. generalize (code c). intros n.
  rewrite !orb_true_iff, !andb_true_iff, !Nat.leb_le, !Nat.eqb_eq.
  intros H. apply andb_false_iff. rewrite !Nat.leb_gt. lia.
Qed.

Lemma period_not_digit : isdigit "." = false.
Proof. reflexivity. Qed.

(** [p+] followed by [k]: some characters satisfying [p], then a match of
    [k] on the rest. *)
Lemma re_plus_true (p : ascii -> bool) (k : string -> bool) (s : string) :
  re_plus p k s = true <->
  exists ds rest,
    s = (ds ++ rest)%string /\ all_chars p ds = true /\ k rest = true.
Proof.
  induction s as [ | c r IH ]; simpl.
  - split.
    + intros H. exists EmptyString, EmptyString. auto.
    + intros (ds & rest & E & _ & Hk).
      destruct ds; [ simpl in E; now subst rest | discriminate ].
  - rewrite orb_true_iff, andb_true_iff, IH. split.
    + intros [[Hc (ds & rest & -> & Hd & Hk)] | Hk].
      * exists (String c ds), rest. simpl. rewrite Hc, Hd. auto.
      * exists EmptyString, (String c r). auto.
    + intros (ds & rest & E & Hd & Hk). destruct ds as [ | d ds ].
      * simpl in E. subst rest. now right.
      * simpl in E, Hd. injection E as -> ->.
        apply andb_true_iff in Hd. destruct Hd as [Hc Hd].
        left. split; [ assumption | ]. exists ds, rest. auto.
Qed.

(** What the pattern [^\d+\.[\sA-Z]] accepts. *)
Lemma numbered_re_true (s : string) :
  re_match numbered_re s = true <->
  exists ds c rest,
    ds <> EmptyString /\ all_chars isdigit ds = true /\
    s = (ds ++ String "." (String c rest))%string /\
    isspace c || isupper_AZ c = true.
Proof.
  unfold numbered_re. simpl. split.
  - destruct s as [ | d s ]; [ discriminate | ].
    rewrite andb_true_iff, re_plus_true.
    intros [Hd (ds & rest & -> & Hds & Hk)].
    destruct rest as [ | dot [ | c rest ] ]; try discriminate;
      [ now rewrite andb_false_r in Hk | ].
    apply andb_true_iff in Hk. destruct Hk as [Hdot Hc].
    apply Ascii.eqb_eq in Hdot. subst dot.
    rewrite andb_true_r in Hc.
    exists (String d ds), c, rest. simpl. rewrite Hd, Hds.
    repeat split; auto. discriminate.
  - intros (ds & c & rest & Hne & Hds & -> & Hc).
    destruct ds as [ | d ds ]; [ congruence | ]. simpl in *.
    apply andb_true_iff in Hds. destruct Hds as [Hd Hds].
    rewrite Hd. simpl. apply re_plus_true.
    exists ds, (String "." (String c rest)). repeat split; auto.
    simpl. now rewrite Hc.
Qed.

(** What the pattern [^\d+\.\d+] accepts. *)
Lemma subnumbered_re_true (s : string) :
  re_match subnumbered_re s = true ->
  exists ds c rest,
    all_chars isdigit ds = true /\
    s = (ds ++ String "." (String c rest))%string /\ isdigit c = true.
Proof.
  unfold subnumbered_re. simpl.
  destruct s as [ | d s ]; [ discriminate | ].
  rewrite andb_true_iff, re_plus_true.
  intros [Hd (ds & rest & -> & Hds & Hk)].
  destruct rest as [ | dot [ | c rest ] ]; try discriminate;
    [ now rewrite andb_false_r in Hk | ].
  apply andb_true_iff in Hk. destruct Hk as [Hdot Hc].
  apply Ascii.eqb_eq in Hdot. subst dot.
  apply andb_true_iff in Hc. destruct Hc as [Hc _].
  exists (String d ds), c, rest. simpl. rewrite Hd, Hds. auto.
Qed.

(** The digits before the first period are determined by the text. *)
Lemma digits_period_unique (d1 d2 r1 r2 : string) :
  all_chars isdigit d1 = true -> all_chars isdigit d2 = true ->
  (d1 ++ String "." r1)%string = (d2 ++ String "." r2)%string ->
  r1 = r2.
Proof.
  revert d2. induction d1 as [ | a d1 IH ]; intros [ | b d2 ]; simpl;
    intros H1 H2 E.
  - now injection E.
  - injection E as <- _. now rewrite period_not_digit in H2.
  - injection E as -> _. now rewrite period_not_digit in H1.
  - injection E as _ E. apply andb_true_iff in H1, H2.
    apply (IH d2); tauto.
Qed.

(** A text accepted by [^\d+\.[\sA-Z]] is never accepted by [^\d+\.\d+]:
    the second test of the source is implied by the first. *)
Lemma numbered_not_subnumbered (s : string) :
  re_match numbered_re s = true -> re_match subnumbered_re s = false.
Proof.
  intros H. destruct (re_match subnumbered_re s) eqn:E; [ | reflexivity ].
  apply numbered_re_true in H.
  destruct H as (d1 & c1 & r1 & _ & H1 & -> & Hc1).
  apply subnumbered_re_true in E.
  destruct E as (d2 & c2 & r2 & H2 & E & Hc2).
  apply digits_period_unique in E; auto. injection E as -> _.
  apply space_or_upper_not_digit in Hc1. congruence.
Qed.

Lemma is_numbered_h1_re (s : string) :
  is_numbered_h1 s = re_match numbered_re s.
Proof.
  unfold is_numbered_h1. destruct (re_match numbered_re s) eqn:E;
    [ | reflexivity ].
  now rewrite (numbered_not_subnumbered s E).
Qed.

(** ** The scan of the document *)

Lemma fold_left_invariant {A B : Type} (P : A -> Prop) (f : A -> B -> A)
      (l : list B) (a : A) :
  P a -> (forall a b, In b l -> P a -> P (f a b)) -> P (fold_left f l a).
Proof.
  revert a. induction l as [ | b l IH ]; simpl; intros a Ha Hf;
    [ assumption | ].
  apply IH; auto.
Qed.

Lemma in_enumerate {A : Type} (l : list A) (n : nat) (a : A) :
  In (n, a) (enumerate l) -> In a l.
Proof. unfold enumerate. apply in_combine_r. Qed.

Lemma scan_line_cases (n : nat) (st : ScanState) (line : RawLine.t) :
  scan_line n st line = st
  \/ exists rec,
       scan_line n st line =
         (fst st ++ [rec], counter_add style_eqb (style rec) 1 (snd st))
       /\ extractable line = true
       /\ dominant_style (RawLine.spans line) = Some (style rec)
       /\ text rec = line_text (RawLine.spans line)
       /\ text rec <> EmptyString
       /\ font_size rec = style_size (style rec)
       /\ page rec = Z.of_nat n + 1
       /\ bbox rec = RawLine.bbox line.
Proof.
  unfold scan_line, extractable.
  destruct (RawLine.spans line) as [ | sp sps ] eqn:Es; [ now left | ].
  destruct (dominant_style (sp :: sps)) as [dom | ] eqn:Ed; [ | now left ].
  destruct (String.eqb (line_text (sp :: sps)) EmptyString) eqn:Et;
    [ now left | ].
  right.
  exists {| text := line_text (sp :: sps); style := dom;
            font_size := style_size dom; page := Z.of_nat n + 1;
            bbox := RawLine.bbox line |}.
  split; [ reflexivity | ]. simpl.
  repeat split; auto.
  now apply String.eqb_neq.
Qed.

Lemma scan_line_invariant (n : nat) (st : ScanState) (line : RawLine.t) :
  scan_invariant st -> scan_invariant (scan_line n st line).
Proof.
  intros [Hc Hf].
  destruct (scan_line_cases n st line)
    as [-> | (rec & -> & Hx & Hd & Ht & Hne & Hfs & Hp & _)];
    [ now split | ].
  split; simpl.
  - rewrite map_app. simpl. unfold counter_of_keys at 1.
    rewrite map_app. simpl. rewrite counter_of_snoc. simpl.
    now rewrite Hc.
  - apply Forall_app. split; [ assumption | ].
    constructor; [ | constructor ].
    exists (RawLine.spans line). repeat split; auto; try lia.
    unfold extractable in Hx. intros E. now rewrite E in Hx.
Qed.

Lemma scan_doc_invariant (doc : Doc) : scan_invariant (scan_doc doc).
Proof.
  unfold scan_doc. apply fold_left_invariant.
  - split; [ reflexivity | constructor ].
  - intros st [n pg] _ Hst. unfold scan_page. simpl.
    apply fold_left_invariant; [ assumption | ].
    intros st' b _ Hst'. unfold scan_block.
    destruct (Block.type b =? 0); [ | assumption ].
    apply fold_left_invariant; [ assumption | ].
    intros st'' line _. apply scan_line_invariant.
Qed.

Lemma style_counts_lines (doc : Doc) :
  style_counts doc = counter_of_keys style_eqb (map style (lines_data doc)).
Proof. apply scan_doc_invariant. Qed.

Lemma lines_data_from_spans (doc : Doc) (l : LineInfo) :
  In l (lines_data doc) -> from_spans l.
Proof.
  intros H. destruct (scan_doc_invariant doc) as [_ Hf].
  rewrite Forall_forall in Hf. now apply Hf.
Qed.

(** A document without an extractable line leaves the scan where it
    started. *)
Lemma scan_doc_blank (doc : Doc) :
  (forall line, In line (text_lines doc) -> extractable line = false) ->
  scan_doc doc = ([], []).
Proof.
  intros Hblank. unfold scan_doc.
  apply (fold_left_invariant (fun st => st = ([], []))); [ reflexivity | ].
  intros st [n pg] Hpg ->. apply in_enumerate in Hpg.
  unfold scan_page. simpl.
  apply (fold_left_invariant (fun st => st = ([], []))); [ reflexivity | ].
  intros st b Hb ->. unfold scan_block.
  destruct (Block.type b =? 0) eqn:Eb; [ | reflexivity ].
  apply (fold_left_invariant (fun st => st = ([], []))); [ reflexivity | ].
  intros st line Hline ->.
  assert (Hx : extractable line = false).
  { apply Hblank. unfold text_lines. apply in_flat_map.
    exists pg. split; [ assumption | ]. apply in_flat_map.
    exists b. split; [ assumption | ]. now rewrite Eb. }
  destruct (scan_line_cases n ([], []) line)
    as [-> | (rec & _ & Hx' & _)]; [ reflexivity | congruence ].
Qed.

(** The body style of a document with lines is the most frequent style of
    its lines, the first seen among the most frequent. *)
Lemma body_style_most_frequent (doc : Doc) :
  lines_data doc <> [] ->
  exists b, body_style doc = Some b /\
            most_frequent_first_seen style_eqb (map style (lines_data doc)) b.
Proof.
  intros H. unfold body_style. rewrite style_counts_lines.
  apply (most_common1_most_frequent style_eqb style_eqb_eq).
  destruct (lines_data doc); [ congruence | discriminate ].
Qed.

(** ** Heading groups *)

Lemma style_eqb_sym (a b : Style) : style_eqb a b = style_eqb b a.
Proof.
  destruct (style_eqb a b) eqn:E1, (style_eqb b a) eqn:E2; auto.
  - apply style_eqb_eq in E1. subst b.
    now rewrite (eqb_refl_true style_eqb style_eqb_eq) in E2.
  - apply style_eqb_eq in E2. subst b.
    now rewrite (eqb_refl_true style_eqb style_eqb_eq) in E1.
Qed.

Lemma groups_get (l : list LineInfo) (k : Style) :
  dict_get style_eqb (fold_left add_to_group l []) k =
  match group_of l k with [] => None | ls => Some ls end.
Proof.
  induction l as [ | x l IH ] using rev_ind; [ reflexivity | ].
  rewrite fold_left_app. simpl. unfold group_of in *. rewrite filter_app.
  simpl. unfold add_to_group at 1. destruct (passes_pruning x) eqn:Ep; simpl.
  - rewrite (dict_get_update style_eqb style_eqb_eq).
    rewrite (style_eqb_sym (style x) k).
    destruct (style_eqb k (style x)) eqn:Ek.
    + apply style_eqb_eq in Ek. subst k. rewrite IH.
      destruct (filter _ l); reflexivity.
    + rewrite app_nil_r. apply IH.
  - rewrite app_nil_r. apply IH.
Qed.

Lemma groups_nodup (l : list LineInfo) :
  NoDup (keys (fold_left add_to_group l [])).
Proof.
  induction l as [ | x l IH ] using rev_ind; [ constructor | ].
  rewrite fold_left_app. simpl. unfold add_to_group at 1.
  destruct (passes_pruning x); [ | assumption ].
  now apply (keys_dict_update_nodup style_eqb style_eqb_eq).
Qed.

Lemma heading_groups_nodup (doc : Doc) : NoDup (keys (heading_groups doc)).
Proof. apply groups_nodup. Qed.

(** The group of a style holds exactly the pruned candidates of that
    style, in document order, and is never empty. *)
Lemma heading_groups_entry (doc : Doc) (k : Style) (ls : list LineInfo) :
  In (k, ls) (heading_groups doc) <->
  ls = group_of (all_candidates doc) k /\ ls <> [].
Proof.
  unfold heading_groups. split.
  - intros H.
    apply (in_dict_get style_eqb style_eqb_eq) in H; [ | apply groups_nodup ].
    rewrite groups_get in H.
    destruct (group_of (all_candidates doc) k); [ discriminate | ].
    injection H as <-. split; [ reflexivity | discriminate ].
  - intros [-> Hne]. apply (dict_get_in style_eqb style_eqb_eq).
    rewrite groups_get.
    destruct (group_of (all_candidates doc) k); [ congruence | reflexivity ].
Qed.

Lemma in_group_of (cands : list LineInfo) (k : Style) (x : LineInfo) :
  In x (group_of cands k) <->
  In x cands /\ passes_pruning x = true /\ style x = k.
Proof.
  unfold group_of. rewrite filter_In, andb_true_iff, style_eqb_eq. tauto.
Qed.

(** The keys of the groups are the styles of the pruned candidates. *)
Lemma heading_groups_keys (doc : Doc) (k : Style) :
  In k (keys (heading_groups doc)) <->
  exists x, In x (all_candidates doc) /\ passes_pruning x = true
            /\ style x = k.
Proof.
  unfold keys. rewrite in_map_iff. split.
  - intros ([k' ls] & Hk & Hin). simpl in Hk. subst k'.
    apply heading_groups_entry in Hin. destruct Hin as [-> Hne].
    destruct (group_of (all_candidates doc) k) as [ | x r ] eqn:E;
      [ congruence | ].
    exists x. apply in_group_of. rewrite E. now left.
  - intros (x & Hx). apply in_group_of in Hx.
    exists (k, group_of (all_candidates doc) k). split; [ reflexivity | ].
    apply heading_groups_entry. split; [ reflexivity | ].
    intros E. now rewrite E in Hx.
Qed.

(** ** Levels *)

Lemma larger_style_asym (a b : Style) :
  larger_style a b = true -> larger_style b a = false.
Proof. unfold larger_style. rewrite Z.ltb_lt, Z.ltb_ge. lia. Qed.

Lemma larger_style_trans (a b c : Style) :
  larger_style b a = false -> larger_style c b = false ->
  larger_style c a = false.
Proof. unfold larger_style. rewrite !Z.ltb_ge. lia. Qed.

Lemma StronglySorted_impl {A : Type} (R S : A -> A -> Prop) (l : list A) :
  (forall a b, R a b -> S a b) -> StronglySorted R l -> StronglySorted S l.
Proof.
  intros HRS. induction 1 as [ | a l Hs IH Ha ]; constructor; auto.
  rewrite Forall_forall in Ha |- *. auto.
Qed.

Lemma subheading_styles_perm (doc : Doc) (h1 : Style) :
  Permutation
    (filter (fun s => style_size s <? style_size h1)
            (keys (heading_groups doc)))
    (subheading_styles doc h1).
Proof. apply stable_sort_perm. Qed.

Lemma subheading_styles_in (doc : Doc) (h1 s : Style) :
  In s (subheading_styles doc h1) <->
  In s (keys (heading_groups doc)) /\ style_size s < style_size h1.
Proof.
  unfold subheading_styles. rewrite stable_sort_in, filter_In, Z.ltb_lt.
  tauto.
Qed.

Lemma subheading_styles_nodup (doc : Doc) (h1 : Style) :
  NoDup (subheading_styles doc h1).
Proof.
  eapply Permutation_NoDup; [ apply subheading_styles_perm | ].
  apply NoDup_filter, heading_groups_nodup.
Qed.

Lemma subheading_styles_sorted (doc : Doc) (h1 : Style) :
  StronglySorted size_descending (subheading_styles doc h1).
Proof.
  apply (StronglySorted_impl (in_order larger_style)).
  - unfold in_order, larger_style, size_descending. intros a b.
    rewrite Z.ltb_ge. lia.
  - apply stable_sort_sorted;
      [ apply larger_style_asym | apply larger_style_trans ].
Qed.

Lemma h1_levels_fold (h1 : Style) (ks : list Style) (s : Style) :
  dict_get style_eqb
    (fold_left
       (fun m k => if style_size h1 <=? style_size k
                   then dict_set style_eqb k H1 m else m) ks []) s =
  if existsb (fun k => style_eqb s k && (style_size h1 <=? style_size k)) ks
  then Some H1 else None.
Proof.
  induction ks as [ | k ks IH ] using rev_ind; [ reflexivity | ].
  rewrite fold_left_app, existsb_app. simpl.
  destruct (style_size h1 <=? style_size k) eqn:E.
  - rewrite (dict_get_set style_eqb style_eqb_eq), IH.
    destruct (style_eqb s k); simpl.
    + now rewrite orb_true_r.
    + now rewrite orb_false_r.
  - rewrite IH, andb_false_r, orb_false_r. reflexivity.
Qed.

Lemma h1_levels_get (doc : Doc) (h1 s : Style) (lv : Level) :
  dict_get style_eqb (h1_levels doc h1) s = Some lv <->
  lv = H1 /\ In s (keys (heading_groups doc))
  /\ style_size h1 <= style_size s.
Proof.
  unfold h1_levels. rewrite h1_levels_fold.
  destruct (existsb _ _) eqn:E.
  - apply existsb_exists in E. destruct E as (k & Hin & Hk).
    apply andb_true_iff in Hk. destruct Hk as [Hk Hle].
    apply style_eqb_eq in Hk. subst k. apply Z.leb_le in Hle.
    split; [ intros H; injection H as <-; auto | intros [-> _]; reflexivity ].
  - split; [ discriminate | ]. intros (_ & Hin & Hle). exfalso.
    assert (Ht : existsb
                   (fun k => style_eqb s k && (style_size h1 <=? style_size k))
                   (keys (heading_groups doc)) = true).
    { apply existsb_exists. exists s. split; [ assumption | ].
      rewrite (eqb_refl_true style_eqb style_eqb_eq). now apply Z.leb_le. }
    congruence.
Qed.

Lemma level_map_get (doc : Doc) (h1 s : Style) :
  dict_get style_eqb (level_map doc h1) s =
  match subheading_styles doc h1 with
  | [] => dict_get style_eqb (h1_levels doc h1) s
  | [a] => if style_eqb s a then Some H2
           else dict_get style_eqb (h1_levels doc h1) s
  | a :: b :: _ =>
      if style_eqb s b then Some H3
      else if style_eqb s a then Some H2
           else dict_get style_eqb (h1_levels doc h1) s
  end.
Proof.
  unfold level_map. destruct (subheading_styles doc h1) as [ | a [ | b r ] ];
    rewrite ?(dict_get_set style_eqb style_eqb_eq); reflexivity.
Qed.

Section LevelFacts.
Variable doc : Doc.
Variable h1 : Style.

Lemma eqb_style_dec (s a : Style) :
  (style_eqb s a = true /\ s = a) \/ (style_eqb s a = false /\ s <> a).
Proof.
  destruct (style_eqb s a) eqn:E.
  - left. split; [ reflexivity | now apply style_eqb_eq ].
  - right. split; [ reflexivity | ].
    now apply (eqb_false_neq style_eqb style_eqb_eq).
Qed.

Lemma level_H1_iff (s : Style) :
  dict_get style_eqb (level_map doc h1) s = Some H1 <->
  In s (keys (heading_groups doc)) /\ style_size h1 <= style_size s.
Proof.
  rewrite level_map_get.
  pose proof (subheading_styles_in doc h1) as Hin.
  destruct (subheading_styles doc h1) as [ | a [ | b r ] ].
  - rewrite h1_levels_get. tauto.
  - assert (Ha : style_size a < style_size h1) by (apply Hin; now left).
    destruct (eqb_style_dec s a) as [[-> ->] | [-> Hne]].
    + split; [ discriminate | lia ].
    + rewrite h1_levels_get. tauto.
  - assert (Ha : style_size a < style_size h1) by (apply Hin; now left).
    assert (Hb : style_size b < style_size h1)
      by (apply Hin; right; now left).
    destruct (eqb_style_dec s b) as [[-> ->] | [-> Hnb]];
      [ split; [ discriminate | lia ] | ].
    destruct (eqb_style_dec s a) as [[-> ->] | [-> Hna]];
      [ split; [ discriminate | lia ] | ].
    rewrite h1_levels_get. tauto.
Qed.

Lemma level_H2_iff (s : Style) :
  dict_get style_eqb (level_map doc h1) s = Some H2 <->
  nth_error (subheading_styles doc h1) 0 = Some s.
Proof.
  rewrite level_map_get.
  pose proof (subheading_styles_nodup doc h1) as Hnd.
  destruct (subheading_styles doc h1) as [ | a [ | b r ] ]; simpl.
  - rewrite h1_levels_get. split; [ intros [H _] | ]; discriminate.
  - destruct (eqb_style_dec s a) as [[-> ->] | [-> Hne]]; [ tauto | ].
    rewrite h1_levels_get.
    split; [ intros [H _]; discriminate | intros H; congruence ].
  - inversion Hnd as [ | ? ? Hab _ ]; subst.
    destruct (eqb_style_dec s b) as [[-> ->] | [-> Hnb]].
    + split; [ discriminate | ]. intros H. injection H as ->.
      exfalso. apply Hab. now left.
    + destruct (eqb_style_dec s a) as [[-> ->] | [-> Hna]]; [ tauto | ].
      rewrite h1_levels_get.
      split; [ intros [H _]; discriminate | intros H; congruence ].
Qed.

Lemma level_H3_iff (s : Style) :
  dict_get style_eqb (level_map doc h1) s = Some H3 <->
  nth_error (subheading_styles doc h1) 1 = Some s.
Proof.
  rewrite level_map_get.
  destruct (subheading_styles doc h1) as [ | a [ | b r ] ]; simpl.
  - rewrite h1_levels_get. split; [ intros [H _] | ]; discriminate.
  - destruct (eqb_style_dec s a) as [[-> ->] | [-> Hne]];
      [ split; discriminate | ].
    rewrite h1_levels_get. split; [ intros [H _] | ]; discriminate.
  - destruct (eqb_style_dec s b) as [[-> ->] | [-> Hnb]]; [ tauto | ].
    destruct (eqb_style_dec s a) as [[-> ->] | [-> Hna]];
      [ split; [ discriminate | congruence ] | ].
    rewrite h1_levels_get.
    split; [ intros [H _]; discriminate | intros H; congruence ].
Qed.

(** From the third subordinate style on, a style has no level. *)
Lemma level_none_beyond (i : nat) (s : Style) :
  (2 <= i)%nat -> nth_error (subheading_styles doc h1) i = Some s ->
  dict_get style_eqb (level_map doc h1) s = None.
Proof.
  intros Hi Hs.
  pose proof (subheading_styles_nodup doc h1) as Hnd.
  assert (Hlen : (i < List.length (subheading_styles doc h1))%nat)
    by (apply nth_error_Some; congruence).
  rewrite NoDup_nth_error in Hnd.
  destruct (dict_get style_eqb (level_map doc h1) s) as [ [ | | ] | ] eqn:E;
    [ | | | reflexivity ]; exfalso.
  - apply level_H1_iff in E. apply nth_error_In in Hs.
    apply subheading_styles_in in Hs. lia.
  - apply level_H2_iff in E. rewrite <- Hs in E.
    apply Hnd in E; lia.
  - apply level_H3_iff in E. rewrite <- Hs in E.
    apply Hnd in E; lia.
Qed.

(** The entries of the outline: the pruned candidates whose style has a
    level, each with the level of its style. *)
Lemma outline_in (e : Entry) :
  In e (outline doc h1) <->
  In (line_info e) (all_candidates doc)
  /\ passes_pruning (line_info e) = true
  /\ dict_get style_eqb (level_map doc h1) (entry_style e) = Some (level e).
Proof.
  unfold outline. rewrite stable_sort_in. unfold unsorted_outline.
  rewrite in_flat_map. split.
  - intros ([k ls] & Hg & He). simpl in He.
    apply heading_groups_entry in Hg. destruct Hg as [-> _].
    destruct (dict_get style_eqb (level_map doc h1) k) as [l | ] eqn:El;
      [ | contradiction ].
    apply in_map_iff in He. destruct He as (x & <- & Hx).
    apply in_group_of in Hx. destruct Hx as (Hc & Hp & Hk).
    unfold entry_style. simpl. rewrite Hk. auto.
  - intros (Hc & Hp & Hl).
    exists (entry_style e, group_of (all_candidates doc) (entry_style e)).
    assert (Hx : In (line_info e)
                    (group_of (all_candidates doc) (entry_style e)))
      by (apply in_group_of; auto).
    split.
    + apply heading_groups_entry. split; [ reflexivity | ].
      intros E. now rewrite E in Hx.
    + simpl. rewrite Hl. apply in_map_iff. exists (line_info e).
      split; [ now destruct e | assumption ].
Qed.
End LevelFacts.

(** ** Reading order *)

Lemma reads_before_false (a b : Entry) :
  reads_before b a = false <-> reading_order a b.
Proof.
  unfold reads_before, reading_order, Qltb.
  destruct (page (line_info b) =? page (line_info a)) eqn:E.
  - apply Z.eqb_eq in E. rewrite negb_false_iff, Qle_bool_iff. split.
    + intros H. right. split; [ congruence | assumption ].
    + intros [H | [_ H]]; [ lia | assumption ].
  - apply Z.eqb_neq in E. rewrite Z.ltb_ge. split.
    + intros H. left. lia.
    + intros [H | [H _]]; [ lia | congruence ].
Qed.

Lemma reading_order_total (a b : Entry) :
  reading_order a b \/ reading_order b a.
Proof.
  unfold reading_order.
  destruct (Z.lt_trichotomy (page (line_info a)) (page (line_info b)))
    as [H | [H | H]]; auto.
  destruct (Qlt_le_dec (bbox1 (bbox (line_info b)))
                       (bbox1 (bbox (line_info a)))) as [Hq | Hq].
  - right. right. split; [ congruence | now apply Qlt_le_weak ].
  - left. right. auto.
Qed.

Lemma reading_order_trans (a b c : Entry) :
  reading_order a b -> reading_order b c -> reading_order a c.
Proof.
  unfold reading_order.
  intros [H1 | [H1 Q1]] [H2 | [H2 Q2]]; try (left; lia).
  right. split; [ congruence | eapply Qle_trans; eassumption ].
Qed.

Lemma reads_before_asym (a b : Entry) :
  reads_before a b = true -> reads_before b a = false.
Proof.
  intros H. apply reads_before_false.
  destruct (reading_order_total a b) as [Ho | Ho]; [ assumption | ].
  apply reads_before_false in Ho. congruence.
Qed.

Lemma reads_before_ge_trans (a b c : Entry) :
  reads_before b a = false -> reads_before c b = false ->
  reads_before c a = false.
Proof.
  rewrite !reads_before_false. apply reading_order_trans.
Qed.

(** ** The result *)

Lemma process_outline (doc : Doc) :
  Out.outline (process_pdf_to_outline doc) = map project (outline_entries doc).
Proof.
  unfold process_pdf_to_outline, outline_entries.
  destruct (lines_data doc); [ reflexivity | ].
  destruct (h1_style doc); reflexivity.
Qed.

Lemma process_title (doc : Doc) :
  lines_data doc <> [] -> Out.title (process_pdf_to_outline doc) = title doc.
Proof.
  unfold process_pdf_to_outline.
  destruct (lines_data doc); [ congruence | ].
  destruct (h1_style doc); reflexivity.
Qed.

Lemma outline_entries_some (doc : Doc) (e : Entry) :
  In e (outline_entries doc) ->
  exists h1, h1_style doc = Some h1 /\ In e (outline doc h1).
Proof.
  unfold outline_entries. destruct (lines_data doc); [ contradiction | ].
  destruct (h1_style doc) as [h1 | ]; [ | contradiction ].
  intros H. exists h1. auto.
Qed.

Lemma outline_entries_eq (doc : Doc) (h1 : Style) :
  all_candidates doc <> [] -> h1_style doc = Some h1 ->
  outline_entries doc = outline doc h1.
Proof.
  unfold outline_entries, all_candidates. intros Hc ->.
  destruct (lines_data doc); [ now simpl in Hc | reflexivity ].
Qed.

Lemma all_candidates_in (doc : Doc) (l : LineInfo) :
  In l (all_candidates doc) <->
  In l (lines_data doc)
  /\ style_differs (style l) (body_style doc) = true
  /\ text l <> title doc.
Proof.
  unfold all_candidates, is_candidate.
  rewrite filter_In, andb_true_iff, negb_true_iff, String.eqb_neq. tauto.
Qed.

Lemma h1_style_some_candidates (doc : Doc) (h1 : Style) :
  h1_style doc = Some h1 -> all_candidates doc <> [].
Proof.
  unfold h1_style, numbered_h1_candidates. intros H E. rewrite E in H.
  discriminate.
Qed.

Lemma h1_style_outline_entries (doc : Doc) (h1 : Style) :
  h1_style doc = Some h1 -> outline_entries doc = outline doc h1.
Proof.
  intros H. apply outline_entries_eq; [ | assumption ].
  now apply (h1_style_some_candidates doc h1).
Qed.

(** * Main results *)

Lemma bold_bit_test (f : Z) : negb (Z.land f (2 ^ 1) =? 0) = Z.testbit f 1.
Proof.
  change (2 ^ 1) with 2.
  assert (H2 : forall n, Z.testbit 2 n = (1 =? n)).
  { intros n. change 2 with (2 ^ 1). apply Z.pow2_bits_eqb. lia. }
  destruct (Z.testbit f 1) eqn:E.
  - apply negb_true_iff, Z.eqb_neq. intros H0.
    assert (Hb : Z.testbit (Z.land f 2) 1 = true)
      by (rewrite Z.land_spec, E, H2; reflexivity).
    rewrite H0 in Hb. now rewrite Z.bits_0 in Hb.
  - apply negb_false_iff, Z.eqb_eq. apply Z.bits_inj. intros n.
    rewrite Z.land_spec, Z.bits_0, H2.
    destruct (1 =? n) eqn:En.
    + apply Z.eqb_eq in En. subst n. now rewrite E.
    + apply andb_false_r.
Qed.

Lemma style_tuple_of_span (sp : Span.t) : style_tuple sp = style_of_span sp.
Proof. unfold style_tuple, style_of_span. now rewrite bold_bit_test. Qed.

(** The weight the counter holds for a style is the number of characters
    of the spans of that style. *)
Lemma weight_style_chars (t : Style) (spans : list Span.t) :
  weight style_eqb t (span_weights spans) = style_chars t spans.
Proof.
  induction spans as [ | sp r IH ]; [ reflexivity | ].
  cbn [span_weights map weight style_chars fst snd].
  fold (span_weights r). rewrite IH, style_tuple_of_span. f_equal.
  destruct (Style_eq_dec (style_of_span sp) t) as [E | E];
    destruct (style_eqb t (style_of_span sp)) eqn:Eb; try reflexivity.
  - apply (eqb_false_neq style_eqb style_eqb_eq) in Eb. congruence.
  - apply style_eqb_eq in Eb. congruence.
Qed.

(** On a line with one plain and one bold style the plain and the bold
    characters are the characters of these two styles. *)
Lemma two_styles_chars (P B : Style) (spans : list Span.t) :
  style_is_bold P = false -> style_is_bold B = true ->
  (forall sp, In sp spans -> style_of_span sp = P \/ style_of_span sp = B) ->
  plain_chars spans = style_chars P spans
  /\ bold_chars spans = style_chars B spans.
Proof.
  intros HP HB. unfold plain_chars, bold_chars.
  induction spans as [ | sp r IH ]; intros H; [ split; reflexivity | ].
  cbn [chars_with_bold style_chars].
  destruct IH as [IH1 IH2]; [ intros x Hx; apply H; now right | ].
  rewrite IH1, IH2.
  assert (Hb : Z.testbit (Span.flags sp) 1 = style_is_bold (style_of_span sp))
    by reflexivity.
  destruct (H sp (or_introl eq_refl)) as [E | E]; rewrite E in Hb;
    rewrite Hb.
  - rewrite HP. cbn [Bool.eqb].
    destruct (Style_eq_dec (style_of_span sp) P); [ | congruence ].
    destruct (Style_eq_dec (style_of_span sp) B) as [E' | ];
      [ exfalso; congruence | ].
    split; reflexivity.
  - rewrite HB. cbn [Bool.eqb].
    destruct (Style_eq_dec (style_of_span sp) B); [ | congruence ].
    destruct (Style_eq_dec (style_of_span sp) P) as [E' | ];
      [ exfalso; congruence | ].
    split; reflexivity.
Qed.

(** C5 as stated fails when the plain characters are spread over several
    styles: on the sample line six plain characters, three in each of two
    colours, outnumber four bold ones, and the line gets the bold style,
    the triple with the most characters. *)
Lemma plain_majority_counterexample :
  (bold_chars mixed_spans < plain_chars mixed_spans)%nat
  /\ plain_chars mixed_spans = 6%nat
  /\ bold_chars mixed_spans = 4%nat
  /\ dominant_style mixed_spans = Some (10, true, 0)
  /\ style_is_bold (10, true, 0) = true.
Proof. vm_compute. repeat split; lia. Qed.

(** C5, amended.  For a line with at least one span, the style of the
    line is the (rounded size, bold, colour) triple with the greatest
    cumulative number of characters over the spans of the line, the first
    seen among the triples with the most characters.  In particular a
    triple with strictly more characters than every other triple of the
    line is the style of the line; so when the spans of a line carry one
    plain style [P] and one bold style [B], whatever their sizes and
    colours, and the plain characters outnumber the bold ones, the line
    gets the plain style.  The record the scan appends for the line
    carries that style. *)
Theorem dominant_style_heaviest (spans : list Span.t) :
  spans <> [] ->
  exists s,
    dominant_style spans = Some s
    /\ (exists pre sp post,
          spans = pre ++ sp :: post /\ style_of_span sp = s
          /\ forall y, In y pre ->
                (style_chars (style_of_span y) spans
                 < style_chars s spans)%nat)
    /\ (forall t, (style_chars t spans <= style_chars s spans)%nat)
    /\ (forall P,
          In P (map style_of_span spans) ->
          (forall t, In t (map style_of_span spans) -> t <> P ->
                     (style_chars t spans < style_chars P spans)%nat) ->
          s = P)
    /\ (forall P B,
          style_is_bold P = false -> style_is_bold B = true ->
          (forall sp, In sp spans ->
                      style_of_span sp = P \/ style_of_span sp = B) ->
          (bold_chars spans < plain_chars spans)%nat ->
          s = P)
    /\ (forall n st line rec,
          RawLine.spans line = spans ->
          In rec (fst (scan_line n st line)) ->
          In rec (fst st) \/ style rec = s).
Proof.
  intros Hne.
  destruct (most_common1_heaviest style_eqb style_eqb_eq (span_weights spans))
    as (s & Hs & pre & x & post & Hsplit & Hx & Hpre & Hall).
  { unfold span_weights. destruct spans; [ congruence | discriminate ]. }
  assert (Hmax : forall t, (style_chars t spans <= style_chars s spans)%nat).
  { intros t. rewrite <- !weight_style_chars. apply Hall. }
  assert (Hfirst : exists lpre sp lpost,
            spans = lpre ++ sp :: lpost /\ style_of_span sp = s
            /\ forall y, In y lpre ->
                  (style_chars (style_of_span y) spans
                   < style_chars s spans)%nat).
  { unfold span_weights in Hsplit. apply map_eq_app in Hsplit.
    destruct Hsplit as (lpre & lrest & E & Hp & Hr).
    destruct lrest as [ | sp lpost ]; [ discriminate | ].
    simpl in Hr. injection Hr as Hsp Hpost.
    exists lpre, sp, lpost. split; [ exact E | ].
    split; [ rewrite <- style_tuple_of_span, <- Hx, <- Hsp; reflexivity | ].
    intros y Hy. rewrite <- !weight_style_chars, <- style_tuple_of_span.
    apply (Hpre (style_tuple y, String.length (Span.text y))).
    rewrite <- Hp.
    now apply (in_map (fun sp0 =>
                         (style_tuple sp0, String.length (Span.text sp0)))). }
  assert (Hs_in : In s (map style_of_span spans)).
  { destruct Hfirst as (lpre & sp & lpost & -> & <- & _).
    apply in_map, in_elt. }
  assert (Hdom : forall P,
            In P (map style_of_span spans) ->
            (forall t, In t (map style_of_span spans) -> t <> P ->
                       (style_chars t spans < style_chars P spans)%nat) ->
            s = P).
  { intros P HP Hlt. destruct (Style_eq_dec s P) as [E | E];
      [ exact E | exfalso ].
    specialize (Hlt s Hs_in E). specialize (Hmax P). lia. }
  exists s. split; [ exact Hs | ]. split; [ exact Hfirst | ].
  split; [ exact Hmax | ]. split; [ exact Hdom | ]. split.
  - intros P B HP HB Hpb Hlt.
    destruct (two_styles_chars P B spans HP HB Hpb) as [Ep Eb].
    rewrite Ep, Eb in Hlt.
    apply in_map_iff in Hs_in. destruct Hs_in as (sp & Hsp & Hin).
    destruct (Hpb sp Hin) as [E | E]; [ congruence | ].
    specialize (Hmax P). rewrite <- Hsp, E in Hmax. lia.
  - intros n st line rec Hl Hin.
    destruct (scan_line_cases n st line)
      as [E | (r & E & _ & Hd & _)]; rewrite E in Hin; [ now left | ].
    simpl in Hin. apply in_app_or in Hin.
    destruct Hin as [Hin | [<- | []]]; [ now left | right ].
    rewrite Hl in Hd. unfold dominant_style, span_styles in Hd. congruence.
Qed.

Lemma dominant_style_heaviest_witness :
  exists s,
    dominant_style emphasis_spans = Some s
    /\ (exists pre sp post,
          emphasis_spans = pre ++ sp :: post /\ style_of_span sp = s
          /\ forall y, In y pre ->
                (style_chars (style_of_span y) emphasis_spans
                 < style_chars s emphasis_spans)%nat)
    /\ (forall t, (style_chars t emphasis_spans
                   <= style_chars s emphasis_spans)%nat)
    /\ (forall P,
          In P (map style_of_span emphasis_spans) ->
          (forall t, In t (map style_of_span emphasis_spans) -> t <> P ->
                     (style_chars t emphasis_spans
                      < style_chars P emphasis_spans)%nat) ->
          s = P)
    /\ (forall P B,
          style_is_bold P = false -> style_is_bold B = true ->
          (forall sp, In sp emphasis_spans ->
                      style_of_span sp = P \/ style_of_span sp = B) ->
          (bold_chars emphasis_spans < plain_chars emphasis_spans)%nat ->
          s = P)
    /\ (forall n st line rec,
          RawLine.spans line = emphasis_spans ->
          In rec (fst (scan_line n st line)) ->
          In rec (fst st) \/ style rec = s).
Proof. apply (dominant_style_heaviest emphasis_spans). discriminate. Defined.

(** The plain style wins on the sample line although the bold span comes
    first. *)
Example dominant_style_emphasis :
  dominant_style emphasis_spans = Some (11, false, 0).
Proof. reflexivity. Qed.

(** C1. Election of the H1 style.  The candidates are the lines whose
    style differs from the body style and whose text differs from the
    title; the numbered candidates are those among them that match the
    numbered top-level pattern; neither set depends on the word-count and
    punctuation pruning.  For a document with at least one candidate: if
    there is a numbered candidate, the H1 style is the most frequent style
    among the numbered candidates (first seen among the most frequent);
    otherwise it is the most frequent style among all candidates. *)
Theorem h1_style_election (doc : Doc) :
  all_candidates doc <> [] ->
  (forall l, In l (all_candidates doc) <->
             In l (lines_data doc)
             /\ style_differs (style l) (body_style doc) = true
             /\ text l <> title doc)
  /\ (forall l, In l (numbered_h1_candidates doc) <->
                In l (all_candidates doc) /\ is_numbered_h1 (text l) = true)
  /\ (numbered_h1_candidates doc <> [] ->
      exists s,
        h1_style doc = Some s
        /\ most_frequent_first_seen style_eqb
             (map style (numbered_h1_candidates doc)) s)
  /\ (numbered_h1_candidates doc = [] ->
      exists s,
        h1_style doc = Some s
        /\ most_frequent_first_seen style_eqb
             (map style (all_candidates doc)) s).
Proof.
  intros Hc. split; [ apply all_candidates_in | ].
  split; [ intros l; unfold numbered_h1_candidates; apply filter_In | ].
  unfold h1_style.
  destruct (numbered_h1_candidates doc) as [ | x r ] eqn:En; split.
  - congruence.
  - intros _.
    apply (most_common1_most_frequent style_eqb style_eqb_eq).
    destruct (all_candidates doc); [ congruence | discriminate ].
  - intros _.
    apply (most_common1_most_frequent style_eqb style_eqb_eq). discriminate.
  - discriminate.
Qed.

Lemma h1_style_election_witness :
  (forall l, In l (all_candidates election_doc) <->
             In l (lines_data election_doc)
             /\ style_differs (style l) (body_style election_doc) = true
             /\ text l <> title election_doc)
  /\ (forall l, In l (numbered_h1_candidates election_doc) <->
                In l (all_candidates election_doc)
                /\ is_numbered_h1 (text l) = true)
  /\ (numbered_h1_candidates election_doc <> [] ->
      exists s,
        h1_style election_doc = Some s
        /\ most_frequent_first_seen style_eqb
             (map style (numbered_h1_candidates election_doc)) s)
  /\ (numbered_h1_candidates election_doc = [] ->
      exists s,
        h1_style election_doc = Some s
        /\ most_frequent_first_seen style_eqb
             (map style (all_candidates election_doc)) s).
Proof. apply (h1_style_election election_doc). discriminate. Defined.

(** On the sample document the numbered lines elect 14pt bold although
    12pt plain is more frequent among the candidates, and the numbered
    line that the pruning later removes has voted. *)
Example numbered_precedence :
  h1_style election_doc = Some (14, true, 0)
  /\ occurrences style_eqb (14, true, 0)
       (map style (all_candidates election_doc)) = 3%nat
  /\ occurrences style_eqb (12, false, 0)
       (map style (all_candidates election_doc)) = 4%nat
  /\ map passes_pruning (numbered_h1_candidates election_doc)
     = [false; true; true].
Proof. repeat split; reflexivity. Qed.

(** C2 as the specification words it fails: the character class after the
    period accepts one whitespace character or one uppercase letter, not a
    space followed by an uppercase letter.  The candidate line
    "3. introduction" of the sample document counts as a numbered
    top-level candidate although no uppercase letter follows the space, and
    so does a text such as "3.Introduction" with no space at all. *)
Lemma numbered_pattern_spec_fails :
  In lowercase_numbered_line (all_candidates election_doc)
  /\ In lowercase_numbered_line (numbered_h1_candidates election_doc)
  /\ spec_numbered_h1 (text lowercase_numbered_line) = false
  /\ is_numbered_h1 "3.Introduction" = true
  /\ spec_numbered_h1 "3.Introduction" = false.
Proof.
  vm_compute. repeat split; auto 10.
Qed.

(** C2, amended.  A candidate line counts as a numbered top-level heading
    candidate if and only if its text begins with one or more digits, a
    period, and then one character that is a whitespace character or an
    uppercase letter A-Z.  Such a text never matches the sub-numbered
    pattern digits-period-digits, so "3. Introduction" qualifies and
    "3.1 Overview" does not. *)
Theorem numbered_pattern (doc : Doc) (l : LineInfo) :
  In l (all_candidates doc) ->
  (In l (numbered_h1_candidates doc) <->
   exists ds c rest,
     ds <> EmptyString /\ all_chars isdigit ds = true
     /\ text l = (ds ++ String "." (String c rest))%string
     /\ isspace c || isupper_AZ c = true)
  /\ (In l (numbered_h1_candidates doc) ->
      re_match subnumbered_re (text l) = false)
  /\ is_numbered_h1 "3. Introduction" = true
  /\ is_numbered_h1 "3.1 Overview" = false
  /\ re_match subnumbered_re "3.1 Overview" = true.
Proof.
  intros Hc. unfold numbered_h1_candidates.
  split; [ | split; [ | repeat split; reflexivity ] ].
  - rewrite filter_In, is_numbered_h1_re, numbered_re_true. tauto.
  - rewrite filter_In, is_numbered_h1_re. intros [_ H].
    now apply numbered_not_subnumbered.
Qed.

Lemma numbered_pattern_witness :
  (In method_line (numbered_h1_candidates election_doc) <->
   exists ds c rest,
     ds <> EmptyString /\ all_chars isdigit ds = true
     /\ text method_line = (ds ++ String "." (String c rest))%string
     /\ isspace c || isupper_AZ c = true)
  /\ (In method_line (numbered_h1_candidates election_doc) ->
      re_match subnumbered_re (text method_line) = false)
  /\ is_numbered_h1 "3. Introduction" = true
  /\ is_numbered_h1 "3.1 Overview" = false
  /\ re_match subnumbered_re "3.1 Overview" = true.
Proof.
  apply (numbered_pattern election_doc method_line).
  vm_compute. auto 10.
Defined.

(** C3. Level assignment.  The groups are the styles of the candidates
    that pass the pruning.  With the elected H1 style [h1]: every group
    whose font size is at least the font size of [h1] has level H1; the
    groups with a strictly smaller font size, sorted by font size
    descending, are the subordinate styles; the first of them has level
    H2, the second H3, and every further one has no level and no entry in
    the outline.  The outline holds exactly the pruned candidates whose
    style has a level, each under the level of its style. *)
Theorem level_assignment (doc : Doc) (h1 : Style) :
  h1_style doc = Some h1 ->
  (forall s, In s (keys (heading_groups doc)) <->
             exists x, In x (all_candidates doc)
                       /\ passes_pruning x = true /\ style x = s)
  /\ (forall s, In s (keys (heading_groups doc)) ->
                style_size h1 <= style_size s ->
                dict_get style_eqb (level_map doc h1) s = Some H1)
  /\ Permutation
       (filter (fun s => style_size s <? style_size h1)
               (keys (heading_groups doc)))
       (subheading_styles doc h1)
  /\ StronglySorted size_descending (subheading_styles doc h1)
  /\ (forall s, nth_error (subheading_styles doc h1) 0 = Some s ->
                dict_get style_eqb (level_map doc h1) s = Some H2)
  /\ (forall s, nth_error (subheading_styles doc h1) 1 = Some s ->
                dict_get style_eqb (level_map doc h1) s = Some H3)
  /\ (forall i s, (2 <= i)%nat ->
                  nth_error (subheading_styles doc h1) i = Some s ->
                  dict_get style_eqb (level_map doc h1) s = None
                  /\ forall e, In e (outline doc h1) -> entry_style e <> s)
  /\ (forall e, In e (outline doc h1) <->
                In (line_info e) (all_candidates doc)
                /\ passes_pruning (line_info e) = true
                /\ dict_get style_eqb (level_map doc h1) (entry_style e)
                   = Some (level e)).
Proof.
  intros _.
  split; [ apply heading_groups_keys | ].
  split; [ intros s Hs Hle; now apply level_H1_iff | ].
  split; [ apply subheading_styles_perm | ].
  split; [ apply subheading_styles_sorted | ].
  split; [ intros s; apply level_H2_iff | ].
  split; [ intros s; apply level_H3_iff | ].
  split; [ | apply outline_in ].
  intros i s Hi Hs.
  pose proof (level_none_beyond doc h1 i s Hi Hs) as Hn.
  split; [ exact Hn | ].
  intros e He E. apply outline_in in He. destruct He as (_ & _ & Hl).
  rewrite E in Hl. congruence.
Qed.

Lemma level_assignment_witness :
  (forall s, In s (keys (heading_groups ranks_doc)) <->
             exists x, In x (all_candidates ranks_doc)
                       /\ passes_pruning x = true /\ style x = s)
  /\ (forall s, In s (keys (heading_groups ranks_doc)) ->
                style_size (16, true, 0) <= style_size s ->
                dict_get style_eqb (level_map ranks_doc (16, true, 0)) s
                = Some H1)
  /\ Permutation
       (filter (fun s => style_size s <? style_size (16, true, 0))
               (keys (heading_groups ranks_doc)))
       (subheading_styles ranks_doc (16, true, 0))
  /\ StronglySorted size_descending
       (subheading_styles ranks_doc (16, true, 0))
  /\ (forall s, nth_error (subheading_styles ranks_doc (16, true, 0)) 0
                = Some s ->
                dict_get style_eqb (level_map ranks_doc (16, true, 0)) s
                = Some H2)
  /\ (forall s, nth_error (subheading_styles ranks_doc (16, true, 0)) 1
                = Some s ->
                dict_get style_eqb (level_map ranks_doc (16, true, 0)) s
                = Some H3)
  /\ (forall i s, (2 <= i)%nat ->
                  nth_error (subheading_styles ranks_doc (16, true, 0)) i
                  = Some s ->
                  dict_get style_eqb (level_map ranks_doc (16, true, 0)) s
                  = None
                  /\ forall e, In e (outline ranks_doc (16, true, 0)) ->
                               entry_style e <> s)
  /\ (forall e, In e (outline ranks_doc (16, true, 0)) <->
                In (line_info e) (all_candidates ranks_doc)
                /\ passes_pruning (line_info e) = true
                /\ dict_get style_eqb (level_map ranks_doc (16, true, 0))
                     (entry_style e)
                   = Some (level e)).
Proof. apply (level_assignment ranks_doc (16, true, 0)). reflexivity. Defined.

(** The levels of the six styles of the sample document. *)
Example ranks_doc_levels :
  map (dict_get style_eqb (level_map ranks_doc (16, true, 0)))
      [(20, false, 0); (18, false, 0); (16, true, 0);
       (14, false, 0); (12, false, 0); (11, false, 0)]
  = [Some H1; Some H1; Some H1; Some H2; Some H3; None].
Proof. reflexivity. Qed.

(** C4 as stated fails for styles: every style at least as large as the
    H1 style gets level H1, so the outline of the sample document holds
    five distinct styles (20pt, 18pt and 16pt bold at H1, 14pt at H2, 12pt
    at H3). *)
Lemma level_cap_styles_counterexample :
  distinct_styles (outline_entries ranks_doc)
  = [(20, false, 0); (18, false, 0); (16, true, 0);
     (14, false, 0); (12, false, 0)]
  /\ (3 < List.length (distinct_styles (outline_entries ranks_doc)))%nat.
Proof. split; [ reflexivity | vm_compute; lia ]. Qed.

(** C4, amended.  The outline holds at most 3 distinct levels and at most
    2 distinct styles whose font size is below that of the H1 style: an
    entry has level H1 exactly when its font size is at least that of the
    H1 style, level H2 exactly when its style is the first subordinate
    style, and level H3 exactly when its style is the second; every
    further subordinate style has no entry at all. *)
Theorem level_cap (doc : Doc) (h1 : Style) :
  h1_style doc = Some h1 ->
  (List.length (distinct_levels (outline_entries doc)) <= 3)%nat
  /\ (List.length
        (nodup Style_eq_dec
           (filter (fun s => (style_size s <? style_size h1)%Z)
                   (map entry_style (outline_entries doc)))) <= 2)%nat
  /\ (forall e, In e (outline_entries doc) ->
        (level e = H1 <-> style_size h1 <= style_size (entry_style e))
        /\ (level e = H2 <->
            nth_error (subheading_styles doc h1) 0 = Some (entry_style e))
        /\ (level e = H3 <->
            nth_error (subheading_styles doc h1) 1 = Some (entry_style e)))
  /\ (forall i s, (2 <= i)%nat ->
        nth_error (subheading_styles doc h1) i = Some s ->
        forall e, In e (outline_entries doc) -> entry_style e <> s).
Proof.
  intros Hh. rewrite (h1_style_outline_entries doc h1 Hh).
  assert (Hlv : forall e, In e (outline doc h1) ->
            dict_get style_eqb (level_map doc h1) (entry_style e)
            = Some (level e)
            /\ In (entry_style e) (keys (heading_groups doc))).
  { intros e He. apply outline_in in He. destruct He as (Hc & Hp & Hl).
    split; [ assumption | ]. apply heading_groups_keys.
    exists (line_info e). auto. }
  assert (Hcases : forall e, In e (outline doc h1) ->
            (level e = H1 <-> style_size h1 <= style_size (entry_style e))
            /\ (level e = H2 <->
                nth_error (subheading_styles doc h1) 0
                = Some (entry_style e))
            /\ (level e = H3 <->
                nth_error (subheading_styles doc h1) 1
                = Some (entry_style e))).
  { intros e He. destruct (Hlv e He) as [Hl Hk].
    pose proof (level_H1_iff doc h1 (entry_style e)) as I1.
    pose proof (level_H2_iff doc h1 (entry_style e)) as I2.
    pose proof (level_H3_iff doc h1 (entry_style e)) as I3.
    rewrite Hl in I1, I2, I3.
    repeat split; intros H.
    - apply I1. now rewrite H.
    - assert (E : Some (level e) = Some H1) by (apply I1; auto).
      congruence.
    - apply I2. now rewrite H.
    - assert (E : Some (level e) = Some H2) by (apply I2; auto).
      congruence.
    - apply I3. now rewrite H.
    - assert (E : Some (level e) = Some H3) by (apply I3; auto).
      congruence. }
  split; [ | split; [ | split; [ exact Hcases | ] ] ].
  - change 3%nat with (List.length [H1; H2; H3]).
    apply NoDup_incl_length; [ apply NoDup_nodup | ].
    intros [ | | ] _; simpl; auto.
  - apply Nat.le_trans
      with (List.length (firstn 2 (subheading_styles doc h1)));
      [ | apply firstn_le_length ].
    apply NoDup_incl_length; [ apply NoDup_nodup | ].
    intros s Hs. apply nodup_In in Hs. apply filter_In in Hs.
    destruct Hs as [Hs Hlt]. apply Z.ltb_lt in Hlt.
    apply in_map_iff in Hs. destruct Hs as (e & <- & He).
    destruct (Hcases e He) as (C1 & C2 & C3).
    destruct (level e) eqn:El.
    + assert (style_size h1 <= style_size (entry_style e))
        by (now apply C1). lia.
    + assert (E : nth_error (subheading_styles doc h1) 0
                  = Some (entry_style e)) by (now apply C2).
      destruct (subheading_styles doc h1) as [ | a r ]; [ discriminate | ].
      simpl in E. injection E as ->. now left.
    + assert (E : nth_error (subheading_styles doc h1) 1
                  = Some (entry_style e)) by (now apply C3).
      destruct (subheading_styles doc h1) as [ | a [ | b r ] ];
        try discriminate.
      simpl in E. injection E as ->. right. now left.
  - intros i s Hi Hs e He E.
    destruct (Hlv e He) as [Hl _]. rewrite E in Hl.
    rewrite (level_none_beyond doc h1 i s Hi Hs) in Hl. discriminate.
Qed.

Lemma level_cap_witness :
  (List.length (distinct_levels (outline_entries ranks_doc)) <= 3)%nat
  /\ (List.length
        (nodup Style_eq_dec
           (filter (fun s => (style_size s <? style_size (16, true, 0))%Z)
                   (map entry_style (outline_entries ranks_doc)))) <= 2)%nat
  /\ (forall e, In e (outline_entries ranks_doc) ->
        (level e = H1 <->
         style_size (16, true, 0) <= style_size (entry_style e))
        /\ (level e = H2 <->
            nth_error (subheading_styles ranks_doc (16, true, 0)) 0
            = Some (entry_style e))
        /\ (level e = H3 <->
            nth_error (subheading_styles ranks_doc (16, true, 0)) 1
            = Some (entry_style e)))
  /\ (forall i s, (2 <= i)%nat ->
        nth_error (subheading_styles ranks_doc (16, true, 0)) i = Some s ->
        forall e, In e (outline_entries ranks_doc) -> entry_style e <> s).
Proof. apply (level_cap ranks_doc (16, true, 0)). reflexivity. Defined.

Lemma larger_font_asym (a b : LineInfo) :
  larger_font a b = true -> larger_font b a = false.
Proof. unfold larger_font. rewrite Z.ltb_lt, Z.ltb_ge. lia. Qed.

Lemma larger_font_trans (a b c : LineInfo) :
  larger_font b a = false -> larger_font c b = false ->
  larger_font c a = false.
Proof. unfold larger_font. rewrite !Z.ltb_ge. lia. Qed.

Lemma passes_pruning_true (l : LineInfo) :
  passes_pruning l = true <->
  (List.length (split (text l)) < 40)%nat
  /\ endswith (text l) "." = false /\ endswith (text l) ":" = false.
Proof.
  unfold passes_pruning, endswith_any. simpl.
  rewrite andb_true_iff, negb_true_iff, Nat.ltb_lt, orb_false_r,
    orb_false_iff.
  tauto.
Qed.

(** C6. Filter of the outline.  Every heading of the output is the
    projection of an outline entry, and every entry comes from a line of
    the document whose style differs from the body style, whose text
    differs from the title, which has fewer than 40 words and which does
    not end with a period or a colon.  The body style is the style found
    on the most lines, each line counted once, the first seen among the
    most frequent; no line of that style is in the outline. *)
Theorem outline_heading_filter (doc : Doc) (h : Heading.t) :
  In h (Out.outline (process_pdf_to_outline doc)) ->
  (exists e, In e (outline_entries doc) /\ project e = h)
  /\ exists b,
       body_style doc = Some b
       /\ most_frequent_first_seen style_eqb
            (map style (lines_data doc)) b
       /\ forall e, In e (outline_entries doc) ->
            In (line_info e) (lines_data doc)
            /\ entry_style e <> b
            /\ text (line_info e) <> Out.title (process_pdf_to_outline doc)
            /\ (List.length (split (text (line_info e))) < 40)%nat
            /\ endswith (text (line_info e)) "." = false
            /\ endswith (text (line_info e)) ":" = false.
Proof.
  rewrite process_outline. intros Hh. apply in_map_iff in Hh.
  destruct Hh as (e0 & He0 & Hin0).
  split; [ exists e0; auto | ].
  assert (Hne : lines_data doc <> []).
  { unfold outline_entries in Hin0. intros E. now rewrite E in Hin0. }
  destruct (body_style_most_frequent doc Hne) as (b & Hb & Hm).
  exists b. split; [ assumption | ]. split; [ assumption | ].
  intros e He. rewrite (process_title doc Hne).
  apply outline_entries_some in He. destruct He as (h1 & Hh1 & He).
  apply outline_in in He. destruct He as (Hc & Hp & _).
  apply all_candidates_in in Hc. destruct Hc as (Hl & Hd & Ht).
  rewrite Hb in Hd. apply style_differs_some in Hd.
  apply passes_pruning_true in Hp. tauto.
Qed.

Lemma outline_heading_filter_witness :
  (exists e, In e (outline_entries election_doc)
             /\ project e = Heading.mk H1 "2. Method" 1)
  /\ exists b,
       body_style election_doc = Some b
       /\ most_frequent_first_seen style_eqb
            (map style (lines_data election_doc)) b
       /\ forall e, In e (outline_entries election_doc) ->
            In (line_info e) (lines_data election_doc)
            /\ entry_style e <> b
            /\ text (line_info e)
               <> Out.title (process_pdf_to_outline election_doc)
            /\ (List.length (split (text (line_info e))) < 40)%nat
            /\ endswith (text (line_info e)) "." = false
            /\ endswith (text (line_info e)) ":" = false.
Proof.
  apply (outline_heading_filter election_doc (Heading.mk H1 "2. Method" 1)).
  vm_compute. auto 10.
Defined.

(** C7. Title.  For a document with at least one line, the title is the
    text of the page-1 line with the largest font size, the first in
    reading order among the page-1 lines of that size; when no line is on
    page 1 the title is "Untitled Document". *)
Theorem title_selection (doc : Doc) :
  lines_data doc <> [] ->
  (filter (fun l => page l =? 1) (lines_data doc) = [] ->
   Out.title (process_pdf_to_outline doc) = "Untitled Document"%string)
  /\ (filter (fun l => page l =? 1) (lines_data doc) <> [] ->
      exists pre l post,
        filter (fun l => page l =? 1) (lines_data doc) = pre ++ l :: post
        /\ Out.title (process_pdf_to_outline doc) = text l
        /\ (forall x, In x pre -> font_size x < font_size l)
        /\ (forall x, In x post -> font_size x <= font_size l)).
Proof.
  intros Hne. rewrite (process_title doc Hne). unfold title, page1_lines.
  split.
  - intros ->. reflexivity.
  - intros Hp.
    destruct (stable_sort larger_font
                (filter (fun l => page l =? 1) (lines_data doc)))
      as [ | h t ] eqn:Es.
    + exfalso. apply Hp. apply Permutation_nil. rewrite <- Es.
      apply Permutation_sym, stable_sort_perm.
    + destruct (stable_sort_head larger_font larger_font_asym
                  larger_font_trans _ h t Es)
        as (pre & post & E & Hpre & Hpost).
      exists pre, h, post. split; [ exact E | ].
      split; [ reflexivity | ]. split.
      * intros x Hx. specialize (Hpre x Hx). unfold larger_font in Hpre.
        now apply Z.ltb_lt.
      * intros x Hx. specialize (Hpost x Hx). unfold larger_font in Hpost.
        now apply Z.ltb_ge.
Qed.

Lemma title_selection_witness :
  (filter (fun l => page l =? 1) (lines_data election_doc) = [] ->
   Out.title (process_pdf_to_outline election_doc)
   = "Untitled Document"%string)
  /\ (filter (fun l => page l =? 1) (lines_data election_doc) <> [] ->
      exists pre l post,
        filter (fun l => page l =? 1) (lines_data election_doc)
        = pre ++ l :: post
        /\ Out.title (process_pdf_to_outline election_doc) = text l
        /\ (forall x, In x pre -> font_size x < font_size l)
        /\ (forall x, In x post -> font_size x <= font_size l)).
Proof. apply (title_selection election_doc). discriminate. Defined.

(** A document whose first page has no line. *)
Example title_late_doc :
  lines_data late_doc <> []
  /\ Out.title (process_pdf_to_outline late_doc)
     = "Untitled Document"%string.
Proof. split; [ discriminate | reflexivity ]. Qed.

(** C8. Empty document.  When no line of a text block of the input has
    spans and a non-blank text, the scan records no line and the result is
    the sentinel: title "Empty Document" and an empty outline.  The
    function is total, so it returns this value. *)
Theorem empty_document_sentinel (doc : Doc) :
  (forall line, In line (text_lines doc) -> extractable line = false) ->
  lines_data doc = []
  /\ process_pdf_to_outline doc
     = {| Out.title := "Empty Document"; Out.outline := [] |}.
Proof.
  intros H. assert (E : lines_data doc = []).
  { unfold lines_data. now rewrite (scan_doc_blank doc H). }
  split; [ exact E | ]. unfold process_pdf_to_outline. now rewrite E.
Qed.

Lemma empty_document_sentinel_witness :
  lines_data blank_doc = []
  /\ process_pdf_to_outline blank_doc
     = {| Out.title := "Empty Document"; Out.outline := [] |}.
Proof.
  apply (empty_document_sentinel blank_doc).
  intros line Hin. vm_compute in Hin.
  destruct Hin as [<- | [<- | []]]; reflexivity.
Defined.

(** C9. Ordering.  The output is the projection of the sorted entries, and
    when entry [a] precedes entry [b] there, either the page of [a] is
    smaller, or the pages are equal and the top edge of [a] is at most
    that of [b]. *)
Theorem outline_reading_order (doc : Doc) (pre : list Entry) (a : Entry)
        (mid : list Entry) (b : Entry) (post : list Entry) :
  outline_entries doc = pre ++ a :: mid ++ b :: post ->
  reading_order a b
  /\ Out.outline (process_pdf_to_outline doc)
     = map project pre ++ project a
         :: map project mid ++ project b :: map project post.
Proof.
  intros E. split.
  - apply reads_before_false.
    assert (Hs : StronglySorted (in_order reads_before) (outline_entries doc)).
    { unfold outline_entries. destruct (lines_data doc); [ constructor | ].
      destruct (h1_style doc); [ | constructor ].
      apply stable_sort_sorted;
        [ apply reads_before_asym | apply reads_before_ge_trans ]. }
    exact (sorted_pairwise reads_before _ Hs pre a mid b post E).
  - rewrite process_outline, E, map_app. simpl. now rewrite map_app.
Qed.

Lemma outline_reading_order_witness :
  reading_order (mkEntry H1 method_line) (mkEntry H1 lowercase_numbered_line)
  /\ Out.outline (process_pdf_to_outline election_doc)
     = map project [mkEntry H2 (sample_line "Summary" 12 false 1 (80 # 1))]
         ++ project (mkEntry H1 method_line)
         :: map project
              [mkEntry H2 (sample_line "Notes" 12 false 1 (160 # 1));
               mkEntry H2 (sample_line "Remarks" 12 false 2 (30 # 1))]
         ++ project (mkEntry H1 lowercase_numbered_line)
         :: map project
              [mkEntry H2 (sample_line "Appendix" 12 false 2 (90 # 1))].
Proof.
  apply (outline_reading_order election_doc
           [mkEntry H2 (sample_line "Summary" 12 false 1 (80 # 1))]
           (mkEntry H1 method_line)
           [mkEntry H2 (sample_line "Notes" 12 false 1 (160 # 1));
            mkEntry H2 (sample_line "Remarks" 12 false 2 (30 # 1))]
           (mkEntry H1 lowercase_numbered_line)
           [mkEntry H2 (sample_line "Appendix" 12 false 2 (90 # 1))]).
  reflexivity.
Defined.

(** C10. H2 without H1.  On the sample document the only line of the
    elected H1 style is removed by the pruning and every remaining group
    is smaller than the H1 style: no style has level H1, no heading of the
    output has level H1, and yet the largest remaining group has level H2
    and its line is in the output. *)
Theorem h2_without_h1 :
  exists doc h1,
    h1_style doc = Some h1
    /\ (exists l, In l (all_candidates doc) /\ style l = h1)
    /\ (forall l, In l (all_candidates doc) -> style l = h1 ->
                  passes_pruning l = false)
    /\ (forall s, In s (keys (heading_groups doc)) ->
                  style_size s < style_size h1)
    /\ (forall s, dict_get style_eqb (level_map doc h1) s <> Some H1)
    /\ (forall h, In h (Out.outline (process_pdf_to_outline doc)) ->
                  Heading.level h <> H1)
    /\ (exists s, nth_error (subheading_styles doc h1) 0 = Some s
                  /\ dict_get style_eqb (level_map doc h1) s = Some H2)
    /\ In (Heading.mk H2 "Overview" 1)
          (Out.outline (process_pdf_to_outline doc)).
Proof.
  exists pruned_h1_doc, (16, true, 0).
  assert (Hk : forall s, In s (keys (heading_groups pruned_h1_doc)) ->
                         style_size s < style_size (16, true, 0)).
  { intros s Hs. vm_compute in Hs. destruct Hs as [<- | []]. reflexivity. }
  split; [ reflexivity | ].
  split; [ exists (sample_line "1. Intro." 16 true 1 (20 # 1));
           split; [ vm_compute; auto | reflexivity ] | ].
  split.
  { intros l Hl Hs. vm_compute in Hl.
    destruct Hl as [<- | [<- | []]]; [ reflexivity | discriminate ]. }
  split; [ exact Hk | ].
  split.
  { intros s Hs. apply level_H1_iff in Hs. destruct Hs as [Hin Hle].
    specialize (Hk s Hin). lia. }
  split.
  { intros h Hh. vm_compute in Hh. destruct Hh as [<- | []]. discriminate. }
  split; [ exists (12, true, 0); split; reflexivity | ].
  vm_compute. auto.
Qed.

(** * Further properties of [process_pdf_to_outline] *)

Lemma h1_style_none_iff (doc : Doc) :
  h1_style doc = None <-> all_candidates doc = [].
Proof.
  split.
  - intros Hn. destruct (all_candidates doc) as [ | c cs ] eqn:Ec;
      [ reflexivity | exfalso ].
    unfold h1_style in Hn.
    destruct (numbered_h1_candidates doc) as [ | x r ] eqn:En.
    + destruct (most_common1_most_frequent style_eqb style_eqb_eq
                  (map style (all_candidates doc))) as (s & Hs & _).
      { rewrite Ec. discriminate. }
      congruence.
    + destruct (most_common1_most_frequent style_eqb style_eqb_eq
                  (map style (x :: r))) as (s & Hs & _);
        [ discriminate | congruence ].
  - intros E. destruct (h1_style doc) as [h1 | ] eqn:Eh; [ | reflexivity ].
    now apply h1_style_some_candidates in Eh.
Qed.

(** X1. The exit without a heading style.  No H1 style is elected exactly
    when the document has no heading candidate; a document with lines and
    without candidates gets its title and an empty outline. *)
Theorem no_candidates_empty_outline (doc : Doc) :
  lines_data doc <> [] ->
  (h1_style doc = None <-> all_candidates doc = [])
  /\ (all_candidates doc = [] ->
      process_pdf_to_outline doc
      = {| Out.title := title doc; Out.outline := [] |}).
Proof.
  intros Hne. split; [ apply h1_style_none_iff | ].
  intros E. apply h1_style_none_iff in E. unfold process_pdf_to_outline.
  destruct (lines_data doc); [ congruence | ]. now rewrite E.
Qed.

Lemma no_candidates_empty_outline_witness :
  (h1_style late_doc = None <-> all_candidates late_doc = [])
  /\ (all_candidates late_doc = [] ->
      process_pdf_to_outline late_doc
      = {| Out.title := title late_doc; Out.outline := [] |}).
Proof. apply (no_candidates_empty_outline late_doc). discriminate. Defined.

(** X2. A document whose lines all have one dominant style has that style
    as body style and an empty outline. *)
Theorem single_style_no_outline (doc : Doc) (s : Style) :
  lines_data doc <> [] ->
  (forall l, In l (lines_data doc) -> style l = s) ->
  body_style doc = Some s
  /\ Out.outline (process_pdf_to_outline doc) = [].
Proof.
  intros Hne Hall.
  destruct (body_style_most_frequent doc Hne) as (b & Hb & pre & post & E & _).
  assert (Hin : In b (map style (lines_data doc)))
    by (rewrite E; apply in_elt).
  apply in_map_iff in Hin. destruct Hin as (l & Hl & Hin).
  rewrite (Hall l Hin) in Hl. subst b. split; [ exact Hb | ].
  assert (Ec : all_candidates doc = []).
  { unfold all_candidates.
    destruct (filter (is_candidate doc) (lines_data doc)) as [ | c cs ] eqn:Ef;
      [ reflexivity | exfalso ].
    assert (Hc : In c (filter (is_candidate doc) (lines_data doc)))
      by (rewrite Ef; now left).
    apply filter_In in Hc. destruct Hc as [Hc1 Hc2].
    unfold is_candidate in Hc2. rewrite Hb in Hc2.
    apply andb_true_iff in Hc2. destruct Hc2 as [Hd _].
    apply style_differs_some in Hd. apply Hd. now apply Hall. }
  rewrite process_outline. unfold outline_entries.
  destruct (lines_data doc); [ reflexivity | ].
  apply h1_style_none_iff in Ec. now rewrite Ec.
Qed.

Lemma single_style_no_outline_witness :
  body_style late_doc = Some (12, false, 0)
  /\ Out.outline (process_pdf_to_outline late_doc) = [].
Proof.
  apply (single_style_no_outline late_doc (12, false, 0)).
  - discriminate.
  - intros l Hl. vm_compute in Hl. destruct Hl as [<- | []]. reflexivity.
Defined.

(** Adding a line to its group adds it to the lines selected by any test
    on the style. *)
Lemma select_groups_update (P : Style -> bool) (k : Style) (x : LineInfo)
      (g : @dict Style (list LineInfo)) :
  Permutation
    (flat_map (fun e : Style * list LineInfo =>
                 if P (fst e) then snd e else [])
       (dict_update style_eqb k
          (fun o => match o with Some ls => ls ++ [x] | None => [] ++ [x] end)
          g))
    (flat_map (fun e : Style * list LineInfo =>
                 if P (fst e) then snd e else []) g
     ++ (if P k then [x] else [])).
Proof.
  induction g as [ | [k' v] r IH ]; simpl.
  - rewrite app_nil_r. apply Permutation_refl.
  - destruct (style_eqb k k') eqn:E; simpl.
    + apply style_eqb_eq in E. subst k'. destruct (P k).
      * rewrite <- !app_assoc. apply Permutation_app_head.
        apply Permutation_app_comm.
      * rewrite app_nil_r. apply Permutation_refl.
    + rewrite <- app_assoc. now apply Permutation_app_head.
Qed.

Lemma select_groups_perm (P : Style -> bool) (l : list LineInfo) :
  Permutation
    (flat_map (fun e : Style * list LineInfo =>
                 if P (fst e) then snd e else [])
       (fold_left add_to_group l []))
    (filter (fun x => passes_pruning x && P (style x)) l).
Proof.
  induction l as [ | x l IH ] using rev_ind; [ apply perm_nil | ].
  rewrite fold_left_app, filter_app. simpl. unfold add_to_group at 1.
  destruct (passes_pruning x); simpl.
  - eapply perm_trans; [ apply select_groups_update | ].
    apply Permutation_app; [ exact IH | ].
    destruct (P (style x)); apply Permutation_refl.
  - now rewrite app_nil_r.
Qed.

(** X3. No line is lost or repeated.  The lines of the outline are, up to
    order, exactly the candidates that pass the pruning and whose style has
    a level, each as many times as it occurs among the candidates. *)
Theorem outline_lines_permutation (doc : Doc) (h1 : Style) :
  h1_style doc = Some h1 ->
  Permutation
    (map line_info (outline_entries doc))
    (filter (fun l => passes_pruning l && has_level doc h1 l)
            (all_candidates doc))
  /\ List.length (Out.outline (process_pdf_to_outline doc))
     = List.length
         (filter (fun l => passes_pruning l && has_level doc h1 l)
                 (all_candidates doc)).
Proof.
  intros Hh.
  assert (Hp : Permutation
                 (map line_info (outline_entries doc))
                 (filter (fun l => passes_pruning l && has_level doc h1 l)
                         (all_candidates doc))).
  { rewrite (h1_style_outline_entries doc h1 Hh). unfold outline.
    eapply perm_trans.
    { apply Permutation_map, Permutation_sym, stable_sort_perm. }
    unfold unsorted_outline.
    eapply perm_trans;
      [ | apply (select_groups_perm
                   (fun s => match dict_get style_eqb (level_map doc h1) s with
                             | Some _ => true
                             | None => false
                             end)) ].
    fold (heading_groups doc).
    induction (heading_groups doc) as [ | [k v] r IH ]; simpl;
      [ apply perm_nil | ].
    rewrite map_app. apply Permutation_app; [ | exact IH ].
    destruct (dict_get style_eqb (level_map doc h1) k); simpl;
      [ | apply perm_nil ].
    rewrite map_map. simpl. rewrite map_id. apply Permutation_refl. }
  split; [ exact Hp | ].
  rewrite process_outline, length_map.
  rewrite <- (Permutation_length Hp). now rewrite length_map.
Qed.

Lemma outline_lines_permutation_witness :
  Permutation
    (map line_info (outline_entries ranks_doc))
    (filter (fun l => passes_pruning l && has_level ranks_doc (16, true, 0) l)
            (all_candidates ranks_doc))
  /\ List.length (Out.outline (process_pdf_to_outline ranks_doc))
     = List.length
         (filter
            (fun l => passes_pruning l && has_level ranks_doc (16, true, 0) l)
            (all_candidates ranks_doc)).
Proof.
  apply (outline_lines_permutation ranks_doc (16, true, 0)). reflexivity.
Defined.

(** X4. The outline has a heading of level H1 exactly when some candidate
    that passes the pruning is at least as large as the elected H1 style;
    in particular one surviving line of the H1 style is enough. *)
Theorem h1_heading_present (doc : Doc) (h1 : Style) :
  h1_style doc = Some h1 ->
  ((exists e, In e (outline_entries doc) /\ level e = H1) <->
   (exists l, In l (all_candidates doc) /\ passes_pruning l = true
              /\ style_size h1 <= style_size (style l)))
  /\ (forall l, In l (all_candidates doc) -> passes_pruning l = true ->
                style l = h1 -> In (mkEntry H1 l) (outline_entries doc)).
Proof.
  intros Hh. rewrite (h1_style_outline_entries doc h1 Hh).
  assert (Hin : forall l, In l (all_candidates doc) ->
                  passes_pruning l = true ->
                  style_size h1 <= style_size (style l) ->
                  In (mkEntry H1 l) (outline doc h1)).
  { intros l Hc Hp Hle. apply outline_in. simpl.
    split; [ assumption | ]. split; [ assumption | ].
    apply level_H1_iff. split; [ | assumption ].
    apply heading_groups_keys. exists l. auto. }
  split; [ split | ].
  - intros (e & He & Hl). apply outline_in in He.
    destruct He as (Hc & Hp & Hlv). rewrite Hl in Hlv.
    apply level_H1_iff in Hlv. exists (line_info e). tauto.
  - intros (l & Hc & Hp & Hle). exists (mkEntry H1 l). auto.
  - intros l Hc Hp Hs. apply Hin; auto. rewrite Hs. lia.
Qed.

Lemma h1_heading_present_witness :
  ((exists e, In e (outline_entries election_doc) /\ level e = H1) <->
   (exists l, In l (all_candidates election_doc)
              /\ passes_pruning l = true
              /\ style_size (14, true, 0) <= style_size (style l)))
  /\ (forall l, In l (all_candidates election_doc) ->
                passes_pruning l = true -> style l = (14, true, 0) ->
                In (mkEntry H1 l) (outline_entries election_doc)).
Proof.
  apply (h1_heading_present election_doc (14, true, 0)). reflexivity.
Defined.

(** X5. A heading of level H3 never comes without one of level H2: when
    the outline has an H3 entry it has an H2 entry, and the H2 style is at
    least as large as the H3 style. *)
Theorem h3_implies_h2 (doc : Doc) (e3 : Entry) :
  In e3 (outline_entries doc) -> level e3 = H3 ->
  exists e2,
    In e2 (outline_entries doc) /\ level e2 = H2
    /\ style_size (entry_style e3) <= style_size (entry_style e2).
Proof.
  intros He Hl. destruct (outline_entries_some doc e3 He) as (h1 & Hh & He3).
  rewrite (h1_style_outline_entries doc h1 Hh).
  apply outline_in in He3. destruct He3 as (_ & _ & Hlv).
  rewrite Hl in Hlv. apply level_H3_iff in Hlv.
  pose proof (subheading_styles_sorted doc h1) as Hs.
  pose proof (subheading_styles_in doc h1) as Hin.
  destruct (subheading_styles doc h1) as [ | a [ | b r ] ] eqn:Es;
    try discriminate.
  simpl in Hlv. injection Hlv as Hb.
  assert (Ha : In a (keys (heading_groups doc))) by (apply Hin; now left).
  apply heading_groups_keys in Ha. destruct Ha as (x & Hc & Hp & Hx).
  exists (mkEntry H2 x). split; [ | split; [ reflexivity | ] ].
  - apply outline_in. simpl. split; [ assumption | ].
    split; [ assumption | ]. apply level_H2_iff.
    unfold entry_style. simpl. now rewrite Es, Hx.
  - unfold entry_style at 2. simpl. rewrite Hx, <- Hb.
    inversion Hs as [ | ? ? _ Hall ]; subst.
    rewrite Forall_forall in Hall. apply Hall. now left.
Qed.

Lemma h3_implies_h2_witness :
  exists e2,
    In e2 (outline_entries ranks_doc) /\ level e2 = H2
    /\ style_size (entry_style
                     (mkEntry H3 (sample_line "Minor" 12 false 1 (180 # 1))))
       <= style_size (entry_style e2).
Proof.
  apply (h3_implies_h2 ranks_doc
           (mkEntry H3 (sample_line "Minor" 12 false 1 (180 # 1)))).
  - vm_compute. auto 10.
  - reflexivity.
Defined.

(** X6. Levels follow font size: of two entries of the outline, the one
    with the strictly larger font size never has the deeper level. *)
Theorem levels_follow_font_size (doc : Doc) (a b : Entry) :
  In a (outline_entries doc) -> In b (outline_entries doc) ->
  style_size (entry_style a) < style_size (entry_style b) ->
  level_rank (level b) <= level_rank (level a).
Proof.
  intros Ha Hb Hlt.
  destruct (outline_entries_some doc a Ha) as (h1 & Hh & Ha1).
  rewrite (h1_style_outline_entries doc h1 Hh) in Hb.
  apply outline_in in Ha1. destruct Ha1 as (_ & _ & La).
  apply outline_in in Hb. destruct Hb as (_ & _ & Lb).
  pose proof (subheading_styles_sorted doc h1) as Hs.
  pose proof (subheading_styles_in doc h1) as Hin.
  destruct (level b) eqn:Eb; [ destruct (level a); simpl; lia | | ].
  - (* b is H2: a is smaller than a subordinate style, so not H1 *)
    apply level_H2_iff in Lb.
    assert (Hb : style_size (entry_style b) < style_size h1)
      by (apply Hin; eapply nth_error_In; exact Lb).
    destruct (level a) eqn:Ea; simpl; try lia.
    apply level_H1_iff in La. lia.
  - (* b is H3: a is neither H1 nor H2 *)
    apply level_H3_iff in Lb.
    assert (Hb : style_size (entry_style b) < style_size h1)
      by (apply Hin; eapply nth_error_In; exact Lb).
    destruct (level a) eqn:Ea; simpl; try lia.
    + apply level_H1_iff in La. lia.
    + apply level_H2_iff in La.
      destruct (subheading_styles doc h1) as [ | x [ | y r ] ];
        try discriminate.
      simpl in La, Lb. injection La as ->. injection Lb as ->.
      inversion Hs as [ | ? ? _ Hall ]; subst.
      rewrite Forall_forall in Hall.
      assert (size_descending (entry_style a) (entry_style b))
        by (apply Hall; now left).
      unfold size_descending in *. lia.
Qed.

Lemma levels_follow_font_size_witness :
  level_rank (level (mkEntry H1 (sample_line "Part One" 18 false 1 (80 # 1))))
  <= level_rank
       (level (mkEntry H3 (sample_line "Minor" 12 false 1 (180 # 1)))).
Proof.
  apply (levels_follow_font_size ranks_doc
           (mkEntry H3 (sample_line "Minor" 12 false 1 (180 # 1)))
           (mkEntry H1 (sample_line "Part One" 18 false 1 (80 # 1)))).
  - vm_compute. auto 10.
  - vm_compute. auto 10.
  - reflexivity.
Defined.

(** ** The recorded lines *)

Lemma fold_left_indexed {A S : Type} (P : nat -> S -> Prop)
      (f : S -> nat * A -> S) (l : list A) :
  forall k s,
    P k s ->
    (forall n a s, In a l -> P n s -> P (Datatypes.S n) (f s (n, a))) ->
    P (k + List.length l)%nat
      (fold_left f (combine (seq k (List.length l)) l) s).
Proof.
  induction l as [ | a l IH ]; simpl; intros k s Hs Hf.
  - now rewrite Nat.add_0_r.
  - rewrite Nat.add_succ_r. apply (IH (Datatypes.S k)).
    + apply Hf; auto.
    + intros n b s' Hb. apply Hf. now right.
Qed.

Lemma fold_left_enumerate {A S : Type} (P : nat -> S -> Prop)
      (f : S -> nat * A -> S) (l : list A) (s : S) :
  P 0%nat s ->
  (forall n a s, In a l -> P n s -> P (Datatypes.S n) (f s (n, a))) ->
  P (List.length l) (fold_left f (enumerate l) s).
Proof. intros H0 Hf. exact (fold_left_indexed P f l 0%nat s H0 Hf). Qed.

Lemma sorted_snoc {A : Type} (R : A -> A -> Prop) (l : list A) (x : A) :
  StronglySorted R l -> Forall (fun y => R y x) l ->
  StronglySorted R (l ++ [x]).
Proof.
  induction 1 as [ | a l Hs IH Ha ]; simpl; intros Hx.
  - repeat constructor.
  - inversion Hx as [ | ? ? Hax Hlx ]; subst. constructor; [ auto | ].
    apply Forall_app. split; [ assumption | now constructor ].
Qed.

Lemma dominant_style_some (spans : list Span.t) :
  spans <> [] -> exists s, dominant_style spans = Some s.
Proof.
  intros Hne.
  destruct (most_common1_heaviest style_eqb style_eqb_eq (span_weights spans))
    as (s & Hs & _).
  { unfold span_weights. destruct spans; [ congruence | discriminate ]. }
  exists s. exact Hs.
Qed.

(** An extractable line is recorded, any other line is not. *)
Lemma scan_line_extractable (n : nat) (st : ScanState) (line : RawLine.t) :
  (extractable line = false /\ scan_line n st line = st)
  \/ (extractable line = true
      /\ exists rec,
           fst (scan_line n st line) = fst st ++ [rec]
           /\ (text rec, page rec, bbox1 (bbox rec)) = recorded_as n line).
Proof.
  destruct (scan_line_cases n st line)
    as [E | (rec & E & Hx & _ & Ht & _ & _ & Hp & Hb)].
  - destruct (extractable line) eqn:Hx; [ | now left ].
    exfalso. unfold scan_line, extractable in *.
    destruct (RawLine.spans line) as [ | sp sps ] eqn:Es; [ discriminate | ].
    destruct (dominant_style_some (sp :: sps)) as (s & Hs); [ discriminate | ].
    rewrite Hs in E.
    destruct (String.eqb (line_text (sp :: sps)) EmptyString);
      [ discriminate | ].
    apply (f_equal (fun p => List.length (fst p))) in E. simpl in E.
    rewrite length_app in E. simpl in E. lia.
  - right. split; [ assumption | ]. exists rec. rewrite E. simpl.
    split; [ reflexivity | ]. unfold recorded_as. now rewrite Ht, Hp, Hb.
Qed.

Lemma scan_lines_recorded (n : nat) (lines : list RawLine.t) :
  forall st,
    map as_recorded (fst (fold_left (scan_line n) lines st))
    = map as_recorded (fst st)
      ++ map (recorded_as n) (filter extractable lines).
Proof.
  induction lines as [ | line lines IH ]; simpl; intros st.
  - now rewrite app_nil_r.
  - rewrite IH.
    destruct (scan_line_extractable n st line)
      as [[Hx ->] | (Hx & rec & -> & Hr)]; rewrite Hx.
    + reflexivity.
    + rewrite map_app. cbn [map]. rewrite <- app_assoc. cbn [app].
      do 2 f_equal. exact Hr.
Qed.

Lemma scan_page_recorded (p : nat * Page) (st : ScanState) :
  map as_recorded (fst (scan_page st p))
  = map as_recorded (fst st)
    ++ flat_map
         (fun b : Block.t =>
            if Block.type b =? 0
            then map (recorded_as (fst p)) (filter extractable (Block.lines b))
            else [])
         (snd p).
Proof.
  unfold scan_page. revert st.
  induction (snd p) as [ | b bs IH ]; simpl; intros st.
  - now rewrite app_nil_r.
  - rewrite IH. unfold scan_block.
    destruct (Block.type b =? 0).
    + rewrite scan_lines_recorded. now rewrite <- app_assoc.
    + reflexivity.
Qed.

Lemma scan_pages_recorded (ps : list (nat * Page)) :
  forall st,
    map as_recorded (fst (fold_left scan_page ps st))
    = map as_recorded (fst st)
      ++ flat_map
           (fun p : nat * Page =>
              flat_map
                (fun b : Block.t =>
                   if Block.type b =? 0
                   then map (recorded_as (fst p))
                            (filter extractable (Block.lines b))
                   else [])
                (snd p))
           ps.
Proof.
  induction ps as [ | p ps IH ]; simpl; intros st.
  - now rewrite app_nil_r.
  - rewrite IH, scan_page_recorded. now rewrite <- app_assoc.
Qed.

Lemma scan_line_pages (n : nat) (st : ScanState) (line : RawLine.t) :
  pages_in_order (Z.of_nat n + 1) st ->
  pages_in_order (Z.of_nat n + 1) (scan_line n st line).
Proof.
  intros [Hb Hs].
  destruct (scan_line_cases n st line)
    as [-> | (rec & -> & _ & _ & _ & _ & _ & Hp & _)]; [ now split | ].
  split; simpl.
  - apply Forall_app. split; [ assumption | ].
    constructor; [ lia | constructor ].
  - apply sorted_snoc; [ assumption | ].
    eapply Forall_impl; [ | exact Hb ]. simpl. intros l Hl. lia.
Qed.

Lemma scan_doc_pages (doc : Doc) :
  pages_in_order (Z.of_nat (List.length doc)) (scan_doc doc).
Proof.
  unfold scan_doc.
  apply (fold_left_enumerate (fun n st => pages_in_order (Z.of_nat n) st)).
  - split; constructor.
  - intros n pg st _ [Hb Hs]. rewrite Nat2Z.inj_succ.
    unfold Z.succ, scan_page. simpl.
    apply fold_left_invariant.
    + split; [ | assumption ].
      eapply Forall_impl; [ | exact Hb ]. simpl. intros l Hl. lia.
    + intros st' b _ Hst'. unfold scan_block.
      destruct (Block.type b =? 0); [ | assumption ].
      apply fold_left_invariant; [ assumption | ].
      intros st'' line _. apply scan_line_pages.
Qed.

(** X7. The recorded lines are the lines of the text blocks that have
    spans and a non-blank text, in document order, each with its stripped
    text, the 1-based number of its page and its top edge; their page
    numbers never decrease along the list and lie between 1 and the number
    of pages. *)
Theorem lines_data_reading_order (doc : Doc) :
  map as_recorded (lines_data doc) = extractable_lines doc
  /\ StronglySorted (fun a b => page a <= page b) (lines_data doc)
  /\ (forall l, In l (lines_data doc) ->
                1 <= page l <= Z.of_nat (List.length doc)).
Proof.
  split; [ | split ].
  - unfold lines_data, scan_doc, extractable_lines.
    now rewrite scan_pages_recorded.
  - apply scan_doc_pages.
  - destruct (scan_doc_pages doc) as [Hb _].
    rewrite Forall_forall in Hb. exact Hb.
Qed.

(** * The file names of the batch driver *)

Lemma length_append (a b : string) :
  String.length (a ++ b) = (String.length a + String.length b)%nat.
Proof.
  induction a as [ | x a IH ]; simpl; [ reflexivity | now rewrite IH ].
Qed.

Lemma substring_all (s : string) : substring 0 (String.length s) s = s.
Proof.
  induction s as [ | c s IH ]; simpl; [ reflexivity | now rewrite IH ].
Qed.

Lemma substring_skip (pre r : string) (m : nat) :
  substring (String.length pre) m (pre ++ r) = substring 0 m r.
Proof. induction pre as [ | c pre IH ]; simpl; [ reflexivity | exact IH ]. Qed.

Lemma substring_split (s : string) :
  forall k, (k <= String.length s)%nat ->
    s = (substring 0 k s ++ substring k (String.length s - k) s)%string.
Proof.
  induction s as [ | c s IH ]; intros [ | k ] Hk; simpl in *; try lia.
  - reflexivity.
  - now rewrite substring_all.
  - rewrite <- IH by lia. reflexivity.
Qed.

(** [s.endswith(suffix)] holds exactly when [s] is some text followed by
    [suffix]. *)
Lemma endswith_true (s suffix : string) :
  endswith s suffix = true <-> exists pre, s = (pre ++ suffix)%string.
Proof.
  unfold endswith. rewrite andb_true_iff, Nat.leb_le, String.eqb_eq. split.
  - intros [Hle E].
    exists (substring 0 (String.length s - String.length suffix) s).
    pose proof (substring_split s (String.length s - String.length suffix))
      as Hs.
    replace (String.length s - (String.length s - String.length suffix))%nat
      with (String.length suffix) in Hs by lia.
    rewrite E in Hs. apply Hs. lia.
  - intros (pre & ->). rewrite length_append. split; [ lia | ].
    replace (String.length pre + String.length suffix
             - String.length suffix)%nat
      with (String.length pre) by lia.
    rewrite substring_skip. apply substring_all.
Qed.

Lemma lower_append (a b : string) :
  lower (a ++ b) = (lower a ++ lower b)%string.
Proof.
  induction a as [ | x a IH ]; simpl; [ reflexivity | now rewrite IH ].
Qed.

Lemma lower_split (p q : string) :
  forall s, lower s = (p ++ q)%string ->
    exists s1 s2, s = (s1 ++ s2)%string /\ lower s1 = p /\ lower s2 = q.
Proof.
  induction p as [ | c p IH ]; simpl; intros s E.
  - exists EmptyString, s. auto.
  - destruct s as [ | x s ]; simpl in E; [ discriminate | ].
    injection E as Ec E. destruct (IH s E) as (s1 & s2 & -> & H1 & H2).
    exists (String x s1), s2. simpl. rewrite Ec, H1. auto.
Qed.

Lemma lower_char_period (a : ascii) : lower_char a = "."%char -> a = "."%char.
Proof.
  destruct a as [[] [] [] [] [] [] [] []]; vm_compute; intros H;
    try reflexivity; discriminate H.
Qed.

Lemma lower_char_of_period : lower_char "." = "."%char.
Proof. reflexivity. Qed.

Lemma before_last_period_none (e : string) :
  all_chars (fun c => negb (is_char "." c)) e = true ->
  before_last_period e = None.
Proof.
  induction e as [ | c e IH ]; simpl; [ reflexivity | ].
  rewrite andb_true_iff, negb_true_iff. intros [Hc He].
  now rewrite (IH He), Hc.
Qed.

Lemma before_last_period_app (stem e : string) :
  all_chars (fun c => negb (is_char "." c)) e = true ->
  before_last_period (stem ++ String "." e) = Some stem.
Proof.
  intros He. induction stem as [ | c stem IH ]; simpl.
  - rewrite (before_last_period_none e He). reflexivity.
  - now rewrite IH.
Qed.

(** The texts that [lower] maps to ".pdf": a period and three letters. *)
Lemma lower_pdf (ext : string) :
  lower ext = ".pdf"%string ->
  exists e, ext = String "." e
            /\ all_chars (fun c => negb (is_char "." c)) e = true.
Proof.
  destruct ext as [ | a [ | b [ | c [ | d [ | x r ] ] ] ] ]; simpl;
    try discriminate.
  intros E. injection E as Ea Eb Ec Ed.
  apply lower_char_period in Ea. subst a.
  exists (String b (String c (String d EmptyString))).
  split; [ reflexivity | ]. simpl.
  assert (Hn : forall y z, lower_char y = z -> z <> "."%char ->
                           negb (is_char "." y) = true).
  { intros y z Hy Hz. apply negb_true_iff.
    destruct (is_char "." y) eqn:Ey; [ | reflexivity ].
    apply Ascii.eqb_eq in Ey. subst y. rewrite lower_char_of_period in Hy.
    congruence. }
  rewrite (Hn b _ Eb), (Hn c _ Ec), (Hn d _ Ed); [ reflexivity | | | ];
    discriminate.
Qed.

(** X8. File names of the batch driver.  A name passes the filter exactly
    when it is a stem followed by an extension that reads ".pdf" in lower
    case, and the result file of such a name is the stem followed by
    ".json", whatever periods the stem contains. *)
Theorem output_filename_pdf (filename : string) :
  (is_pdf_filename filename = true <->
   exists stem ext,
     filename = (stem ++ ext)%string /\ lower ext = ".pdf"%string)
  /\ (forall stem ext,
        filename = (stem ++ ext)%string -> lower ext = ".pdf"%string ->
        output_filename filename = (stem ++ ".json")%string).
Proof.
  split; [ split | ].
  - unfold is_pdf_filename. intros H. apply endswith_true in H.
    destruct H as (pre & H). apply lower_split in H.
    destruct H as (stem & ext & -> & _ & Hext).
    exists stem, ext. split; [ reflexivity | assumption ].
  - intros (stem & ext & -> & Hext).
    unfold is_pdf_filename. apply endswith_true. exists (lower stem).
    now rewrite lower_append, Hext.
  - intros stem ext -> Hext.
    destruct (lower_pdf ext Hext) as (e & -> & He).
    unfold output_filename, rsplit_period_head.
    now rewrite (before_last_period_app stem e He).
Qed.

(** A name with a period in the stem and an upper-case extension. *)
Example output_filename_upper_case :
  is_pdf_filename "annual.report.PDF" = true
  /\ output_filename "annual.report.PDF" = "annual.report.json"%string
  /\ is_pdf_filename "annual.report.pdfx" = false
  /\ is_pdf_filename "pdf" = false.
Proof. repeat split; reflexivity. Qed.

(** X9. The filter ignores the case of the extension and the result name
    forgets it: two names with the same stem whose extensions both read
    ".pdf" in lower case pass the filter and are written to the same
    result file. *)
Theorem output_filename_collision (stem ext1 ext2 : string) :
  lower ext1 = ".pdf"%string -> lower ext2 = ".pdf"%string ->
  is_pdf_filename (stem ++ ext1) = true
  /\ is_pdf_filename (stem ++ ext2) = true
  /\ output_filename (stem ++ ext1) = output_filename (stem ++ ext2).
Proof.
  intros H1 H2.
  assert (Hp : forall ext, lower ext = ".pdf"%string ->
                 is_pdf_filename (stem ++ ext) = true
                 /\ output_filename (stem ++ ext) = (stem ++ ".json")%string).
  { intros ext Hext. split.
    - unfold is_pdf_filename. apply endswith_true. exists (lower stem).
      now rewrite lower_append, Hext.
    - destruct (lower_pdf ext Hext) as (e & -> & He).
      unfold output_filename, rsplit_period_head.
      now rewrite (before_last_period_app stem e He). }
  destruct (Hp ext1 H1) as [A1 B1]. destruct (Hp ext2 H2) as [A2 B2].
  repeat split; auto. congruence.
Qed.

Lemma output_filename_collision_witness :
  is_pdf_filename ("report" ++ ".pdf") = true
  /\ is_pdf_filename ("report" ++ ".PDF") = true
  /\ output_filename ("report" ++ ".pdf")
     = output_filename ("report" ++ ".PDF").
Proof.
  apply (output_filename_collision "report" ".pdf" ".PDF"); reflexivity.
Defined.

(** * The chunks of [parse_pdf_to_structured_chunks] *)

Lemma fold_left_flat_map {A B C : Type} (f : C -> B -> C) (g : A -> list B)
      (h : C -> A -> C) :
  (forall c a, h c a = fold_left f (g a) c) ->
  forall l c, fold_left h l c = fold_left f (flat_map g l) c.
Proof.
  intros Hh. induction l as [ | a l IH ]; simpl; intros c; [ reflexivity | ].
  now rewrite fold_left_app, IH, Hh.
Qed.

(** The first entry that no earlier entry equals and no entry exceeds is
    determined by the list. *)
Lemma first_max_unique {A : Type} (w : A -> nat) (p1 : list A) :
  forall p2 y1 q1 y2 q2,
    p1 ++ y1 :: q1 = p2 ++ y2 :: q2 ->
    (forall y, In y p1 -> (w y < w y1)%nat) ->
    (forall y, In y q1 -> (w y <= w y1)%nat) ->
    (forall y, In y p2 -> (w y < w y2)%nat) ->
    (forall y, In y q2 -> (w y <= w y2)%nat) ->
    y1 = y2.
Proof.
  induction p1 as [ | z p1 IH ]; intros [ | z' p2 ] y1 q1 y2 q2 E P1 Q1 P2 Q2;
    simpl in E; injection E as E1 E2.
  - assumption.
  - exfalso. subst z'.
    assert (w y1 < w y2)%nat by (apply P2; now left).
    assert (w y2 <= w y1)%nat by (apply Q1; rewrite E2; apply in_elt).
    lia.
  - exfalso. subst z.
    assert (w y2 < w y1)%nat by (apply P1; now left).
    assert (w y1 <= w y2)%nat by (apply Q2; rewrite <- E2; apply in_elt).
    lia.
  - apply (IH p2 y1 q1 y2 q2 E2); auto.
    + intros y Hy. apply P1. now right.
    + intros y Hy. apply P2. now right.
Qed.

Lemma more_frequent_asym (a b : Z * nat) :
  Pyth.more_frequent a b = true -> Pyth.more_frequent b a = false.
Proof. unfold Pyth.more_frequent. rewrite Nat.ltb_lt, Nat.ltb_ge. lia. Qed.

Lemma more_frequent_trans (a b c : Z * nat) :
  Pyth.more_frequent b a = false -> Pyth.more_frequent c b = false ->
  Pyth.more_frequent c a = false.
Proof. unfold Pyth.more_frequent. rewrite !Nat.ltb_ge. lia. Qed.

(** The head of the items sorted by count, descending and stable, is the
    item [most_common(1)] returns. *)
Lemma sorted_head_most_common (c : @Counter Z) :
  match stable_sort Pyth.more_frequent c with
  | x :: _ => Some (fst x)
  | [] => None
  end = most_common1 c.
Proof.
  destruct c as [ | x r ]; [ reflexivity | ].
  destruct (stable_sort Pyth.more_frequent (x :: r)) as [ | h t ] eqn:Es.
  - exfalso.
    assert (Hp : Permutation (x :: r) []).
    { rewrite <- Es. apply stable_sort_perm. }
    apply Permutation_sym, Permutation_nil in Hp. discriminate.
  - simpl. f_equal. f_equal.
    destruct (stable_sort_head Pyth.more_frequent more_frequent_asym
                more_frequent_trans _ h t Es)
      as (pre & post & E & Hpre & Hpost).
    destruct (max_first_split r x) as (cpre & cpost & Ec & Hcpre & Hcpost & _).
    rewrite E in Ec.
    apply (first_max_unique snd pre cpre h post (max_first x r) cpost Ec).
    + intros y Hy. specialize (Hpre y Hy). unfold Pyth.more_frequent in Hpre.
      now apply Nat.ltb_lt.
    + intros y Hy. specialize (Hpost y Hy). unfold Pyth.more_frequent in Hpost.
      now apply Nat.ltb_ge.
    + assumption.
    + assumption.
Qed.

Lemma count_line_sizes (fc : @Counter Z) (l : RawLine.t) :
  Pyth.count_line fc l
  = fold_left (fun c k => counter_add Z.eqb k 1 c)
      (map (fun s => py_round (Span.size s)) (RawLine.spans l)) fc.
Proof.
  unfold Pyth.count_line. revert fc.
  induction (RawLine.spans l) as [ | s ss IH ]; simpl; intros fc;
    [ reflexivity | ].
  now rewrite IH.
Qed.

Lemma font_counts_sizes (doc : Pyth.Doc) :
  Pyth.font_counts doc = counter_of_keys Z.eqb (Pyth.span_sizes doc).
Proof.
  unfold Pyth.font_counts, counter_of_keys, counter_of, Pyth.span_sizes.
  set (step := fun (c : @Counter Z) (k : Z) => counter_add Z.eqb k 1 c).
  assert (Hmap : forall ks c,
            fold_left (fun c kn => counter_add Z.eqb (fst kn) (snd kn) c)
              (map (fun k : Z => (k, 1%nat)) ks) c
            = fold_left step ks c).
  { induction ks as [ | k ks IH ]; simpl; intros c; [ reflexivity | ].
    now rewrite IH. }
  rewrite Hmap.
  apply fold_left_flat_map. intros c [bs | ]; simpl; [ | reflexivity ].
  apply fold_left_flat_map. intros c' [ls | ]; simpl; [ | reflexivity ].
  apply fold_left_flat_map. intros c'' l. apply count_line_sizes.
Qed.

Lemma normal_font_size_most_common (doc : Pyth.Doc) :
  Pyth.normal_font_size doc
  = most_common1 (counter_of_keys Z.eqb (Pyth.span_sizes doc)).
Proof.
  unfold Pyth.normal_font_size, Pyth.sorted_fonts.
  rewrite sorted_head_most_common. now rewrite font_counts_sizes.
Qed.

(** X10. The normal font size of a document with at least one span is the
    rounded size found on the most spans, each span counted once whatever
    its length, the first seen among the most frequent; a line is a header
    when one of its spans is at least 2 larger. *)
Theorem normal_font_size_most_frequent (doc : Pyth.Doc) :
  Pyth.span_sizes doc <> [] ->
  exists n,
    Pyth.normal_font_size doc = Some n
    /\ most_frequent_first_seen Z.eqb (Pyth.span_sizes doc) n
    /\ forall spans,
         Pyth.is_header (Pyth.header_font_size_threshold n) spans = true <->
         exists s, In s spans /\ n + 2 <= py_round (Span.size s).
Proof.
  intros Hne. rewrite normal_font_size_most_common.
  destruct (most_common1_most_frequent Z.eqb Z.eqb_eq (Pyth.span_sizes doc) Hne)
    as (n & Hn & Hm).
  exists n. split; [ assumption | ]. split; [ assumption | ].
  intros spans. unfold Pyth.is_header, Pyth.header_font_size_threshold.
  rewrite existsb_exists. split; intros (s & Hs & H); exists s;
    (split; [ assumption | ]); now apply Z.leb_le.
Qed.

Lemma normal_font_size_most_frequent_witness :
  exists n,
    Pyth.normal_font_size chunk_doc = Some n
    /\ most_frequent_first_seen Z.eqb (Pyth.span_sizes chunk_doc) n
    /\ forall spans,
         Pyth.is_header (Pyth.header_font_size_threshold n) spans = true <->
         exists s, In s spans /\ n + 2 <= py_round (Span.size s).
Proof. apply (normal_font_size_most_frequent chunk_doc). discriminate. Defined.

Lemma assemble_app (name : string) (thr : Z) (l1 l2 : list (Z * list Span.t)) :
  forall cur,
    Pyth.assemble name thr cur (l1 ++ l2)
    = Pyth.assemble name thr cur l1
      ++ Pyth.assemble name thr
           (fold_left (Pyth.next_section thr) l1 cur) l2.
Proof.
  induction l1 as [ | x l1 IH ]; simpl; intros cur; [ reflexivity | ].
  now rewrite IH.
Qed.

(** The state after some lines of a page: the chunks of the non-blank ones
    are appended and the section title has followed the headers. *)
Lemma chunk_lines_assemble (name : string) (thr : Z) (n : nat)
      (ls : list RawLine.t) :
  forall st,
    fold_left (Pyth.chunk_line name thr n) ls st
    = (fst st
       ++ Pyth.assemble name thr (snd st)
            (map (Pyth.tag_line n) (filter Pyth.nonblank ls)),
       fold_left (Pyth.next_section thr)
         (map (Pyth.tag_line n) (filter Pyth.nonblank ls)) (snd st)).
Proof.
  induction ls as [ | l ls IH ]; simpl; intros st.
  - rewrite app_nil_r. now destruct st.
  - rewrite IH. destruct (Pyth.nonblank l) eqn:Enb;
      unfold Pyth.nonblank in Enb; unfold Pyth.chunk_line; rewrite Enb; simpl.
    + rewrite andb_true_r, <- app_assoc. reflexivity.
    + rewrite andb_false_r. reflexivity.
Qed.

Lemma chunk_pages_assemble (name : string) (thr : Z)
      (ps : list (nat * Pyth.Page)) :
  forall st,
    fold_left (Pyth.chunk_page name thr) ps st
    = (fst st ++ Pyth.assemble name thr (snd st) (Pyth.nonblank_lines ps),
       fold_left (Pyth.next_section thr) (Pyth.nonblank_lines ps) (snd st)).
Proof.
  assert (Hb : forall n bs st,
            fold_left (Pyth.chunk_block name thr n) bs st
            = (fst st
               ++ Pyth.assemble name thr (snd st)
                    (flat_map
                       (fun b : Pyth.Block =>
                          match b with
                          | Some ls =>
                              map (Pyth.tag_line n) (filter Pyth.nonblank ls)
                          | None => []
                          end) bs),
               fold_left (Pyth.next_section thr)
                 (flat_map
                    (fun b : Pyth.Block =>
                       match b with
                       | Some ls =>
                           map (Pyth.tag_line n) (filter Pyth.nonblank ls)
                       | None => []
                       end) bs) (snd st))).
  { intros n. induction bs as [ | b bs IH ]; simpl; intros st.
    - rewrite app_nil_r. now destruct st.
    - rewrite IH. destruct b as [ls | ]; simpl.
      + rewrite chunk_lines_assemble. simpl.
        now rewrite assemble_app, fold_left_app, <- app_assoc.
      + reflexivity. }
  induction ps as [ | [n pg] ps IH ]; simpl; intros st.
  - rewrite app_nil_r. now destruct st.
  - rewrite IH. unfold Pyth.chunk_page. simpl.
    destruct pg as [bs | ]; simpl.
    + rewrite Hb. simpl.
      now rewrite assemble_app, fold_left_app, <- app_assoc.
    + reflexivity.
Qed.

Lemma line_text_no_span : Pyth.line_text [] = EmptyString.
Proof. reflexivity. Qed.

(** Without a span every line is blank. *)
Lemma no_span_no_line (doc : Pyth.Doc) :
  Pyth.span_sizes doc = [] ->
  forall k, Pyth.nonblank_lines (combine (seq k (List.length doc)) doc) = [].
Proof.
  induction doc as [ | pg doc IH ]; simpl; intros E k; [ reflexivity | ].
  apply app_eq_nil in E. destruct E as [Ep Ed].
  rewrite (IH Ed), app_nil_r. destruct pg as [bs | ]; [ | reflexivity ].
  induction bs as [ | b bs IHb ]; simpl in *; [ reflexivity | ].
  apply app_eq_nil in Ep. destruct Ep as [Eb Ebs].
  rewrite (IHb Ebs), app_nil_r. destruct b as [ls | ]; [ | reflexivity ].
  induction ls as [ | l ls IHl ]; simpl in *; [ reflexivity | ].
  apply app_eq_nil in Eb. destruct Eb as [El Els].
  apply map_eq_nil in El. unfold Pyth.nonblank at 1. rewrite El.
  simpl. apply IHl. exact Els.
Qed.

(** The chunks are the chunks of the non-blank lines of the readable
    pages, started with the document name as section title. *)
Lemma parse_pdf_assemble (name : string) (doc : Pyth.Doc) :
  Pyth.parse_pdf_to_structured_chunks name doc
  = match Pyth.normal_font_size doc with
    | Some normal =>
        Pyth.assemble name (Pyth.header_font_size_threshold normal) name
          (Pyth.nonblank_lines (enumerate doc))
    | None => []
    end.
Proof.
  unfold Pyth.parse_pdf_to_structured_chunks.
  destruct (Pyth.normal_font_size doc); [ | reflexivity ].
  now rewrite chunk_pages_assemble.
Qed.

Lemma normal_font_size_none (doc : Pyth.Doc) :
  Pyth.normal_font_size doc = None -> Pyth.span_sizes doc = [].
Proof.
  rewrite normal_font_size_most_common. intros H.
  destruct (Pyth.span_sizes doc) as [ | k ks ] eqn:E; [ reflexivity | ].
  destruct (most_common1_most_frequent Z.eqb Z.eqb_eq (k :: ks))
    as (n & Hn & _); [ discriminate | congruence ].
Qed.

Lemma assemble_fields (name : string) (thr : Z) (ls : list (Z * list Span.t)) :
  forall cur,
    map (fun c => (Pyth.Chunk.page_number c, Pyth.Chunk.text c))
        (Pyth.assemble name thr cur ls)
    = map (fun x => (fst x, Pyth.line_text (snd x))) ls
    /\ Forall (fun c => Pyth.Chunk.document c = name)
              (Pyth.assemble name thr cur ls).
Proof.
  induction ls as [ | x ls IH ]; simpl; intros cur.
  - split; [ reflexivity | constructor ].
  - destruct (IH (Pyth.next_section thr cur x)) as [E F].
    rewrite E. split; [ reflexivity | now constructor ].
Qed.

(** ** [strip] *)

Lemma lstrip_clean (s : string) :
  match lstrip s with
  | EmptyString => True
  | String c _ => isspace c = false
  end.
Proof.
  induction s as [ | c s IH ]; simpl; [ exact I | ].
  destruct (isspace c) eqn:E; [ exact IH | exact E ].
Qed.

Lemma rstrip_idempotent (s : string) : rstrip (rstrip s) = rstrip s.
Proof.
  induction s as [ | c s IH ]; simpl; [ reflexivity | ].
  destruct (rstrip s) as [ | d r ] eqn:Er.
  - destruct (isspace c) eqn:Ec; simpl; [ reflexivity | now rewrite Ec ].
  - change (rstrip (String c (String d r))) with
      (match rstrip (String d r) with
       | EmptyString =>
           if isspace c then EmptyString else String c EmptyString
       | r' => String c r'
       end).
    now rewrite IH.
Qed.

Lemma rstrip_keeps_head (c : ascii) (s : string) :
  isspace c = false -> exists r, rstrip (String c s) = String c r.
Proof.
  intros Hc. simpl. destruct (rstrip s) as [ | d r ].
  - rewrite Hc. now exists EmptyString.
  - now exists (String d r).
Qed.

(** A stripped text is not changed by stripping it again. *)
Lemma strip_idempotent (s : string) : strip (strip s) = strip s.
Proof.
  unfold strip. pose proof (lstrip_clean s) as Hl.
  destruct (lstrip s) as [ | c r ]; [ reflexivity | ].
  destruct (rstrip_keeps_head c r Hl) as (r' & E).
  rewrite E. simpl lstrip. rewrite Hl. rewrite <- E.
  apply rstrip_idempotent.
Qed.

(** ** Chunks of the lines *)

Lemma nonblank_lines_in (doc : Pyth.Doc) :
  forall k x,
    In x (Pyth.nonblank_lines (combine (seq k (List.length doc)) doc)) ->
    Pyth.line_text (snd x) <> EmptyString
    /\ Z.of_nat k + 1 <= fst x <= Z.of_nat k + Z.of_nat (List.length doc).
Proof.
  intros k x Hx. unfold Pyth.nonblank_lines in Hx.
  apply in_flat_map in Hx. destruct Hx as ([n pg] & Hp & Hx). simpl in Hx.
  apply in_combine_l in Hp. apply in_seq in Hp.
  destruct pg as [bs | ]; [ | contradiction ].
  apply in_flat_map in Hx. destruct Hx as (b & _ & Hx).
  destruct b as [ls | ]; [ | contradiction ].
  apply in_map_iff in Hx. destruct Hx as (l & <- & Hl).
  apply filter_In in Hl. destruct Hl as [_ Hl].
  unfold Pyth.nonblank in Hl. apply negb_true_iff, String.eqb_neq in Hl.
  simpl. split; [ assumption | lia ].
Qed.

Lemma sorted_app {A : Type} (R : A -> A -> Prop) (l1 l2 : list A) :
  StronglySorted R l1 -> StronglySorted R l2 ->
  (forall a b, In a l1 -> In b l2 -> R a b) ->
  StronglySorted R (l1 ++ l2).
Proof.
  induction 1 as [ | a l1 Hs IH Ha ]; simpl; intros H2 H12; [ assumption | ].
  constructor.
  - apply IH; [ assumption | ]. intros x y Hx Hy. apply H12; auto.
  - apply Forall_app. split; [ assumption | ].
    rewrite Forall_forall. intros y Hy. apply H12; auto.
Qed.

Lemma sorted_all_related {A : Type} (R : A -> A -> Prop) (l : list A) :
  (forall a b, In a l -> In b l -> R a b) -> StronglySorted R l.
Proof.
  induction l as [ | x l IH ]; intros H; constructor.
  - apply IH. intros a b Ha Hb. apply H; now right.
  - rewrite Forall_forall. intros y Hy. apply H; [ now left | now right ].
Qed.

Lemma nonblank_lines_sorted (doc : Pyth.Doc) :
  forall k,
    StronglySorted (fun a b : Z * list Span.t => fst a <= fst b)
      (Pyth.nonblank_lines (combine (seq k (List.length doc)) doc)).
Proof.
  induction doc as [ | pg doc IH ]; intros k; [ constructor | ].
  replace (Pyth.nonblank_lines
             (combine (seq k (List.length (pg :: doc))) (pg :: doc)))
    with (Pyth.nonblank_lines [(k, pg)]
          ++ Pyth.nonblank_lines
               (combine (seq (S k) (List.length doc)) doc))
    by (simpl; now rewrite app_nil_r).
  assert (Hk : forall x, In x (Pyth.nonblank_lines [(k, pg)]) ->
                         fst x = Z.of_nat k + 1).
  { intros x Hx.
    apply (nonblank_lines_in [pg] k x) in Hx. simpl in Hx. lia. }
  apply sorted_app.
  - apply sorted_all_related. intros a b Ha Hb.
    rewrite (Hk a Ha), (Hk b Hb). lia.
  - apply IH.
  - intros a b Ha Hb. rewrite (Hk a Ha).
    apply nonblank_lines_in in Hb. lia.
Qed.

Lemma assemble_in (name : string) (thr : Z) (ls : list (Z * list Span.t)) :
  forall cur c,
    In c (Pyth.assemble name thr cur ls) ->
    exists x, In x ls /\ Pyth.Chunk.page_number c = fst x
              /\ Pyth.Chunk.text c = Pyth.line_text (snd x)
              /\ Pyth.Chunk.document c = name.
Proof.
  induction ls as [ | x ls IH ]; simpl; intros cur c Hc; [ contradiction | ].
  destruct Hc as [<- | Hc].
  - exists x. simpl. auto.
  - destruct (IH _ c Hc) as (y & Hy & H). exists y. auto.
Qed.

Lemma assemble_sorted (name : string) (thr : Z) (ls : list (Z * list Span.t)) :
  StronglySorted (fun a b : Z * list Span.t => fst a <= fst b) ls ->
  forall cur,
    StronglySorted
      (fun a b => Pyth.Chunk.page_number a <= Pyth.Chunk.page_number b)
      (Pyth.assemble name thr cur ls).
Proof.
  induction 1 as [ | x ls Hs IH Hx ]; simpl; intros cur; constructor.
  - apply IH.
  - rewrite Forall_forall in Hx |- *. intros c Hc.
    apply assemble_in in Hc. destruct Hc as (y & Hy & Hp & _).
    simpl. rewrite Hp. now apply Hx.
Qed.

(** X11. The chunks of a PDF are its non-blank lines from the readable
    pages, in reading order, one chunk per line: each chunk carries the
    document name, the stripped joined text of its line, which is never
    empty, and the 1-based number of the page, a page that cannot be read
    still being counted; the page numbers never decrease. *)
Theorem pdf_chunks_in_order (name : string) (doc : Pyth.Doc) :
  map (fun c => (Pyth.Chunk.page_number c, Pyth.Chunk.text c))
      (Pyth.parse_pdf_to_structured_chunks name doc)
  = map (fun x => (fst x, Pyth.line_text (snd x)))
        (Pyth.nonblank_lines (enumerate doc))
  /\ (forall c, In c (Pyth.parse_pdf_to_structured_chunks name doc) ->
        Pyth.Chunk.document c = name
        /\ Pyth.Chunk.text c <> EmptyString
        /\ strip (Pyth.Chunk.text c) = Pyth.Chunk.text c
        /\ 1 <= Pyth.Chunk.page_number c <= Z.of_nat (List.length doc))
  /\ StronglySorted
       (fun a b => Pyth.Chunk.page_number a <= Pyth.Chunk.page_number b)
       (Pyth.parse_pdf_to_structured_chunks name doc).
Proof.
  rewrite parse_pdf_assemble.
  destruct (Pyth.normal_font_size doc) as [normal | ] eqn:En.
  - split; [ apply assemble_fields | ]. split.
    + intros c Hc. apply assemble_in in Hc.
      destruct Hc as (x & Hx & Hp & Ht & Hd).
      apply (nonblank_lines_in doc 0%nat) in Hx. destruct Hx as [Hne Hb].
      rewrite Ht, Hp. repeat split; auto; try lia.
      apply strip_idempotent.
    + apply assemble_sorted. apply (nonblank_lines_sorted doc 0%nat).
  - apply normal_font_size_none in En.
    unfold enumerate. rewrite (no_span_no_line doc En 0%nat).
    split; [ reflexivity | ]. split; [ intros c [] | constructor ].
Qed.

Lemma assemble_length (name : string) (thr : Z) (ls : list (Z * list Span.t)) :
  forall cur, List.length (Pyth.assemble name thr cur ls) = List.length ls.
Proof.
  induction ls as [ | x ls IH ]; simpl; intros cur; [ reflexivity | ].
  now rewrite IH.
Qed.

Lemma assemble_nth (name : string) (thr : Z) (ls : list (Z * list Span.t)) :
  forall cur i x,
    nth_error ls i = Some x ->
    exists c,
      nth_error (Pyth.assemble name thr cur ls) i = Some c
      /\ Pyth.Chunk.page_number c = fst x
      /\ Pyth.Chunk.text c = Pyth.line_text (snd x)
      /\ Pyth.Chunk.section_title c
         = if Pyth.is_header thr (snd x) then Pyth.line_text (snd x)
           else match i with
                | O => cur
                | S j =>
                    match nth_error (Pyth.assemble name thr cur ls) j with
                    | Some c' => Pyth.Chunk.section_title c'
                    | None => cur
                    end
                end.
Proof.
  induction ls as [ | y ls IH ]; intros cur [ | i ] x Hx; simpl in Hx;
    try discriminate.
  - injection Hx as ->. eexists. split; [ reflexivity | ]. simpl.
    repeat split; reflexivity.
  - destruct (IH (Pyth.next_section thr cur y) i x Hx)
      as (c & Hc & Hp & Ht & Hsec).
    exists c. simpl. split; [ exact Hc | ].
    split; [ exact Hp | ]. split; [ exact Ht | ].
    rewrite Hsec. destruct (Pyth.is_header thr (snd x)); [ reflexivity | ].
    destruct i as [ | j ]; [ reflexivity | ]. simpl.
    destruct (nth_error
                (Pyth.assemble name thr (Pyth.next_section thr cur y) ls) j)
      eqn:Ej; [ reflexivity | exfalso ].
    apply nth_error_None in Ej. rewrite assemble_length in Ej.
    assert (S j < List.length ls)%nat by (apply nth_error_Some; congruence).
    lia.
Qed.

(** X12. Section titles.  The chunk of a header line, a non-blank line
    with a span at least 2 above the normal font size, has the text of the
    line as section title; the chunk of any other non-blank line has the
    section title of the chunk before it, and the document name when it is
    the first chunk. *)
Theorem pdf_section_titles (name : string) (doc : Pyth.Doc) (normal : Z)
        (i : nat) (p : Z) (spans : list Span.t) :
  Pyth.normal_font_size doc = Some normal ->
  nth_error (Pyth.nonblank_lines (enumerate doc)) i = Some (p, spans) ->
  exists c,
    nth_error (Pyth.parse_pdf_to_structured_chunks name doc) i = Some c
    /\ Pyth.Chunk.page_number c = p
    /\ Pyth.Chunk.text c = Pyth.line_text spans
    /\ Pyth.Chunk.section_title c
       = if Pyth.is_header (normal + 2) spans then Pyth.line_text spans
         else Pyth.section_before name
                (Pyth.parse_pdf_to_structured_chunks name doc) i.
Proof.
  intros Hn Hx. rewrite parse_pdf_assemble, Hn.
  destruct (assemble_nth name (Pyth.header_font_size_threshold normal)
              _ name i (p, spans) Hx) as (c & Hc & Hp & Ht & Hs).
  exists c. split; [ exact Hc | ]. split; [ exact Hp | ].
  split; [ exact Ht | ]. rewrite Hs. reflexivity.
Qed.

Lemma pdf_section_titles_witness :
  exists c,
    nth_error (Pyth.parse_pdf_to_structured_chunks "d.pdf" chunk_doc) 4
    = Some c
    /\ Pyth.Chunk.page_number c = 3
    /\ Pyth.Chunk.text c = Pyth.line_text [span_of "Next" (12 # 1) 0]
    /\ Pyth.Chunk.section_title c
       = if Pyth.is_header (10 + 2) [span_of "Next" (12 # 1) 0]
         then Pyth.line_text [span_of "Next" (12 # 1) 0]
         else Pyth.section_before "d.pdf"
                (Pyth.parse_pdf_to_structured_chunks "d.pdf" chunk_doc) 4.
Proof.
  apply (pdf_section_titles "d.pdf" chunk_doc 10 4 3
           [span_of "Next" (12 # 1) 0]); reflexivity.
Defined.

(** The chunks of the sample document: the blank oversized line starts no
    section and the unreadable page 2 is counted. *)
Example chunk_doc_sections :
  map (fun c => (Pyth.Chunk.page_number c, Pyth.Chunk.section_title c,
                 Pyth.Chunk.text c))
      (Pyth.parse_pdf_to_structured_chunks "d.pdf" chunk_doc)
  = [ (1, "Intro", "Intro"); (1, "Intro", "body one");
      (1, "Intro", "body two"); (3, "Intro", "more body");
      (3, "Next", "Next"); (3, "Next", "tail") ]%string.
Proof. reflexivity. Qed.

(** * The chunks of [parse_txt_to_structured_chunks] *)

Lemma push_char_nonempty (c : ascii) (ps : list string) :
  Pyth.push_char c ps <> [].
Proof. destruct ps; discriminate. Qed.

Lemma split_paragraphs_nonempty (s : string) : Pyth.split_paragraphs s <> [].
Proof.
  destruct s as [ | c [ | d r ] ]; [ discriminate | discriminate | ].
  change (Pyth.split_paragraphs (String c (String d r)))
    with (if Ascii.eqb c Pyth.newline && Ascii.eqb d Pyth.newline
          then EmptyString :: Pyth.split_paragraphs r
          else Pyth.push_char c (Pyth.split_paragraphs (String d r))).
  destruct (Ascii.eqb c Pyth.newline && Ascii.eqb d Pyth.newline);
    [ discriminate | apply push_char_nonempty ].
Qed.

Lemma concat_push_char (sep : string) (c : ascii) (ps : list string) :
  ps <> [] ->
  String.concat sep (Pyth.push_char c ps) = String c (String.concat sep ps).
Proof.
  destruct ps as [ | h [ | y t ] ]; [ congruence | reflexivity | reflexivity ].
Qed.

(** Joining the paragraphs with the separator gives back the content. *)
Lemma split_paragraphs_concat (n : nat) :
  forall s, (String.length s <= n)%nat ->
    String.concat Pyth.paragraph_break (Pyth.split_paragraphs s) = s.
Proof.
  induction n as [ | n IH ]; intros s Hs.
  - destruct s; [ reflexivity | simpl in Hs; lia ].
  - destruct s as [ | c [ | d r ] ]; [ reflexivity | reflexivity | ].
    simpl in Hs.
    change (Pyth.split_paragraphs (String c (String d r)))
      with (if Ascii.eqb c Pyth.newline && Ascii.eqb d Pyth.newline
            then EmptyString :: Pyth.split_paragraphs r
            else Pyth.push_char c (Pyth.split_paragraphs (String d r))).
    destruct (Ascii.eqb c Pyth.newline && Ascii.eqb d Pyth.newline) eqn:E.
    + apply andb_true_iff in E. destruct E as [Ec Ed].
      apply Ascii.eqb_eq in Ec, Ed. subst c d.
      assert (Hr : String.concat Pyth.paragraph_break (Pyth.split_paragraphs r)
                   = r) by (apply IH; lia).
      pose proof (split_paragraphs_nonempty r) as Hne.
      destruct (Pyth.split_paragraphs r) as [ | h t ]; [ congruence | ].
      change (String.concat Pyth.paragraph_break (EmptyString :: h :: t))
        with (Pyth.paragraph_break
              ++ String.concat Pyth.paragraph_break (h :: t))%string.
      now rewrite Hr.
    + rewrite concat_push_char by apply split_paragraphs_nonempty.
      f_equal. apply IH. simpl. lia.
Qed.

Lemma split_paragraphs_single (s : string) :
  Pyth.has_paragraph_break s = false -> Pyth.split_paragraphs s = [s].
Proof.
  induction s as [ | c r IH ]; [ reflexivity | ].
  destruct r as [ | d r' ]; [ reflexivity | ].
  change (Pyth.has_paragraph_break (String c (String d r')))
    with ((Ascii.eqb c Pyth.newline && Ascii.eqb d Pyth.newline)
          || Pyth.has_paragraph_break (String d r')).
  change (Pyth.split_paragraphs (String c (String d r')))
    with (if Ascii.eqb c Pyth.newline && Ascii.eqb d Pyth.newline
          then EmptyString :: Pyth.split_paragraphs r'
          else Pyth.push_char c (Pyth.split_paragraphs (String d r'))).
  intros H. apply orb_false_iff in H. destruct H as [H1 H2].
  rewrite H1, (IH H2). reflexivity.
Qed.

(** X13. Every chunk of a text file carries the document name, page 1 and
    the section title "Content"; its text is one of the paragraphs of the
    content, stripped, is never empty and has no blank at either end. *)
Theorem txt_chunks_clean (name content : string) (c : Pyth.Chunk.t) :
  In c (Pyth.parse_txt_to_structured_chunks name content) ->
  Pyth.Chunk.document c = name
  /\ Pyth.Chunk.page_number c = 1
  /\ Pyth.Chunk.section_title c = "Content"%string
  /\ Pyth.Chunk.text c <> EmptyString
  /\ strip (Pyth.Chunk.text c) = Pyth.Chunk.text c
  /\ exists para, In para (Pyth.split_paragraphs content)
                  /\ Pyth.Chunk.text c = strip para.
Proof.
  unfold Pyth.parse_txt_to_structured_chunks. intros H.
  apply in_flat_map in H. destruct H as (para & Hp & Hc).
  unfold Pyth.txt_chunk in Hc.
  destruct (String.eqb (strip para) EmptyString) eqn:E; [ contradiction | ].
  destruct Hc as [<- | []]. simpl. apply String.eqb_neq in E.
  repeat split; auto.
  - apply strip_idempotent.
  - exists para. auto.
Qed.

Lemma txt_chunks_clean_witness :
  Pyth.Chunk.document (Pyth.Chunk.mk "notes.txt" 1 "Content" "second one")
  = "notes.txt"%string
  /\ Pyth.Chunk.page_number
       (Pyth.Chunk.mk "notes.txt" 1 "Content" "second one") = 1
  /\ Pyth.Chunk.section_title
       (Pyth.Chunk.mk "notes.txt" 1 "Content" "second one")
     = "Content"%string
  /\ Pyth.Chunk.text (Pyth.Chunk.mk "notes.txt" 1 "Content" "second one")
     <> EmptyString
  /\ strip (Pyth.Chunk.text
              (Pyth.Chunk.mk "notes.txt" 1 "Content" "second one"))
     = Pyth.Chunk.text (Pyth.Chunk.mk "notes.txt" 1 "Content" "second one")
  /\ exists para,
       In para (Pyth.split_paragraphs sample_content)
       /\ Pyth.Chunk.text
            (Pyth.Chunk.mk "notes.txt" 1 "Content" "second one")
          = strip para.
Proof.
  apply (txt_chunks_clean "notes.txt" sample_content
           (Pyth.Chunk.mk "notes.txt" 1 "Content" "second one")).
  vm_compute. auto.
Defined.

(** X14. The paragraphs of a text file joined by two newlines give back
    the content, so the splitting loses nothing; there are at most as many
    chunks as paragraphs; a content without two newlines in a row is one
    paragraph and gives one chunk, or none when it is blank. *)
Theorem txt_paragraphs (name content : string) :
  String.concat Pyth.paragraph_break (Pyth.split_paragraphs content) = content
  /\ (List.length (Pyth.parse_txt_to_structured_chunks name content)
      <= List.length (Pyth.split_paragraphs content))%nat
  /\ (Pyth.has_paragraph_break content = false ->
      Pyth.parse_txt_to_structured_chunks name content
      = if String.eqb (strip content) EmptyString then []
        else [ {| Pyth.Chunk.document := name; Pyth.Chunk.page_number := 1;
                  Pyth.Chunk.section_title := "Content";
                  Pyth.Chunk.text := strip content |} ]).
Proof.
  split; [ apply (split_paragraphs_concat (String.length content)); lia | ].
  split.
  - unfold Pyth.parse_txt_to_structured_chunks.
    induction (Pyth.split_paragraphs content) as [ | p ps IH ]; simpl;
      [ lia | ].
    rewrite length_app. unfold Pyth.txt_chunk at 1.
    destruct (String.eqb (strip p) EmptyString); simpl; lia.
  - intros H. unfold Pyth.parse_txt_to_structured_chunks.
    rewrite (split_paragraphs_single content H). simpl.
    rewrite app_nil_r. reflexivity.
Qed.

(** * The ranking of [run_analysis] *)

Lemma Qltb_true (a b : Q) : Qltb a b = true <-> (a < b)%Q.
Proof.
  unfold Qltb. rewrite negb_true_iff. split.
  - intros H. apply Qnot_le_lt. intros Hle.
    apply Qle_bool_iff in Hle. congruence.
  - intros H. destruct (Qle_bool b a) eqn:E; [ | reflexivity ].
    apply Qle_bool_iff in E. exfalso. now apply (Qlt_not_le a b).
Qed.

Lemma Qltb_false (a b : Q) : Qltb a b = false <-> (b <= a)%Q.
Proof. unfold Qltb. rewrite negb_false_iff. apply Qle_bool_iff. Qed.

Lemma higher_score_asym (a b : Pyth.Scored.t) :
  Pyth.higher_score a b = true -> Pyth.higher_score b a = false.
Proof.
  unfold Pyth.higher_score. rewrite Qltb_true, Qltb_false.
  apply Qlt_le_weak.
Qed.

Lemma higher_score_trans (a b c : Pyth.Scored.t) :
  Pyth.higher_score b a = false -> Pyth.higher_score c b = false ->
  Pyth.higher_score c a = false.
Proof.
  unfold Pyth.higher_score. rewrite !Qltb_false.
  intros H1 H2. eapply Qle_trans; eassumption.
Qed.

Lemma higher_section_asym (a b : Pyth.Sect.t) :
  Pyth.higher_section a b = true -> Pyth.higher_section b a = false.
Proof.
  unfold Pyth.higher_section. rewrite Qltb_true, Qltb_false.
  apply Qlt_le_weak.
Qed.

Lemma higher_section_trans (a b c : Pyth.Sect.t) :
  Pyth.higher_section b a = false -> Pyth.higher_section c b = false ->
  Pyth.higher_section c a = false.
Proof.
  unfold Pyth.higher_section. rewrite !Qltb_false.
  intros H1 H2. eapply Qle_trans; eassumption.
Qed.

Lemma sorted_prefix_dominates {A : Type} (R : A -> A -> Prop) (l1 l2 : list A) :
  StronglySorted R (l1 ++ l2) ->
  StronglySorted R l1
  /\ forall a b, In a l1 -> In b l2 -> R a b.
Proof.
  induction l1 as [ | x l1 IH ]; simpl; intros H.
  - split; [ constructor | intros a b [] ].
  - inversion H as [ | ? ? Hs Hx ]; subst.
    destruct (IH Hs) as [Hs1 H12]. rewrite Forall_forall in Hx. split.
    + constructor; [ assumption | ]. rewrite Forall_forall.
      intros y Hy. apply Hx. apply in_or_app. now left.
    + intros a b [<- | Ha] Hb; [ | auto ].
      apply Hx. apply in_or_app. now right.
Qed.

(** X17. The sub-section analysis lists the chunks with the highest
    scores: it is the projection of the first 5 chunks of the list sorted
    by score, so it has 5 entries, or all chunks when there are fewer, it
    is in non-increasing order of score, and no chunk left out has a higher
    score than a chunk listed.  Nothing is produced exactly when there is
    no chunk. *)
Theorem top_subsections (all_chunks : list Pyth.Scored.t) :
  exists top rest,
    Pyth.subsection_analysis all_chunks = map Pyth.subsection_of top
    /\ (Pyth.run_analysis all_chunks = None <-> all_chunks = [])
    /\ (forall out, Pyth.run_analysis all_chunks = Some out ->
                    snd out = map Pyth.subsection_of top)
    /\ Permutation all_chunks (top ++ rest)
    /\ List.length top = Nat.min 5 (List.length all_chunks)
    /\ StronglySorted
         (fun a b => (Pyth.Scored.score b <= Pyth.Scored.score a)%Q) top
    /\ forall a b, In a top -> In b rest ->
                   (Pyth.Scored.score b <= Pyth.Scored.score a)%Q.
Proof.
  exists (firstn 5 (Pyth.ranked_subsections all_chunks)),
         (skipn 5 (Pyth.ranked_subsections all_chunks)).
  assert (Hp : Permutation all_chunks (Pyth.ranked_subsections all_chunks))
    by apply stable_sort_perm.
  assert (Hs : StronglySorted
                 (fun a b => (Pyth.Scored.score b <= Pyth.Scored.score a)%Q)
                 (Pyth.ranked_subsections all_chunks)).
  { apply (StronglySorted_impl (in_order Pyth.higher_score)).
    - unfold in_order, Pyth.higher_score. intros a b H.
      now apply Qltb_false in H.
    - apply stable_sort_sorted;
        [ apply higher_score_asym | apply higher_score_trans ]. }
  rewrite <- (firstn_skipn 5 (Pyth.ranked_subsections all_chunks)) in Hs.
  apply sorted_prefix_dominates in Hs. destruct Hs as [Hs1 H12].
  split; [ reflexivity | ].
  split; [ destruct all_chunks; simpl; split; congruence | ].
  split.
  { intros out Ho. destruct all_chunks; simpl in Ho; [ discriminate | ].
    injection Ho as <-. reflexivity. }
  split; [ now rewrite firstn_skipn | ].
  split; [ | split; assumption ].
  rewrite length_firstn. now rewrite <- (Permutation_length Hp).
Qed.

Lemma key_eqb_eq (a b : Pyth.SectionKey) : Pyth.key_eqb a b = true <-> a = b.
Proof.
  destruct a as [a1 a2], b as [b1 b2]. unfold Pyth.key_eqb. simpl.
  rewrite andb_true_iff, !String.eqb_eq. split.
  - intros [-> ->]. reflexivity.
  - intros H. inversion H. auto.
Qed.

Lemma add_section_invariant (l : list Pyth.Scored.t)
      (d : @dict Pyth.SectionKey Pyth.Sect.t) (x : Pyth.Scored.t) :
  sections_invariant l d ->
  sections_invariant (l ++ [x]) (Pyth.add_section d x).
Proof.
  intros (HA & HC & HN).
  assert (Hother : forall key s,
            key <> Pyth.section_key x ->
            dict_get Pyth.key_eqb d key = Some s ->
            exists pre c post,
              l ++ [x] = pre ++ c :: post /\ Pyth.section_key c = key
              /\ s = Pyth.section_of c
              /\ (forall y, In y pre -> Pyth.section_key y = key ->
                            (Pyth.Scored.score y < Pyth.Scored.score c)%Q)
              /\ (forall y, In y post -> Pyth.section_key y = key ->
                            (Pyth.Scored.score y <= Pyth.Scored.score c)%Q)).
  { intros key s Hk Hs.
    destruct (HA key s Hs) as (pre & c & post & -> & Hc & Hsc & Hpre & Hpost).
    exists pre, c, (post ++ [x]). rewrite <- app_assoc. simpl.
    repeat split; auto. intros y Hy Hyk. apply in_app_or in Hy.
    destruct Hy as [Hy | [<- | []]]; [ auto | congruence ]. }
  assert (Hnew : forall bound,
            (forall y, In y l -> Pyth.section_key y = Pyth.section_key x ->
                       (Pyth.Scored.score y < Pyth.Scored.score x)%Q) ->
            bound = Pyth.section_of x ->
            exists pre c post,
              l ++ [x] = pre ++ c :: post
              /\ Pyth.section_key c = Pyth.section_key x
              /\ bound = Pyth.section_of c
              /\ (forall y, In y pre ->
                            Pyth.section_key y = Pyth.section_key x ->
                            (Pyth.Scored.score y < Pyth.Scored.score c)%Q)
              /\ (forall y, In y post ->
                            Pyth.section_key y = Pyth.section_key x ->
                            (Pyth.Scored.score y <= Pyth.Scored.score c)%Q)).
  { intros bound Hl ->. exists l, x, []. repeat split; auto.
    intros y []. }
  unfold Pyth.add_section.
  destruct (dict_get Pyth.key_eqb d (Pyth.section_key x)) as [old | ] eqn:Eo.
  - destruct (HA _ _ Eo)
      as (pre0 & c0 & post0 & El & Hc0 & Hold & Hpre0 & Hpost0).
    destruct (Qltb (Pyth.Sect.score old) (Pyth.Scored.score x)) eqn:Eq.
    + (* the new chunk beats the section *)
      apply Qltb_true in Eq. rewrite Hold in Eq. simpl in Eq.
      split; [ | split ].
      * intros key s. rewrite (dict_get_set Pyth.key_eqb key_eqb_eq).
        destruct (Pyth.key_eqb key (Pyth.section_key x)) eqn:Ek.
        -- apply key_eqb_eq in Ek. subst key. intros H. injection H as <-.
           apply Hnew; [ | reflexivity ].
           intros y Hy Hyk. rewrite El in Hy. apply in_app_or in Hy.
           destruct Hy as [Hy | [<- | Hy]].
           ++ eapply Qlt_trans; [ apply Hpre0; auto | exact Eq ].
           ++ exact Eq.
           ++ eapply Qle_lt_trans; [ apply Hpost0; auto | exact Eq ].
        -- apply (eqb_false_neq Pyth.key_eqb key_eqb_eq) in Ek.
           now apply Hother.
      * intros key. rewrite (dict_get_set Pyth.key_eqb key_eqb_eq).
        destruct (Pyth.key_eqb key (Pyth.section_key x)) eqn:Ek;
          [ discriminate | ].
        apply (eqb_false_neq Pyth.key_eqb key_eqb_eq) in Ek.
        intros Hn y Hy. apply in_app_or in Hy.
        destruct Hy as [Hy | [<- | []]]; [ now apply (HC key Hn) | auto ].
      * now apply (keys_dict_update_nodup Pyth.key_eqb key_eqb_eq).
    + (* the section keeps its chunk *)
      apply Qltb_false in Eq. rewrite Hold in Eq. simpl in Eq.
      split; [ | split; [ | assumption ] ].
      * intros key s Hs.
        destruct (Pyth.key_eqb key (Pyth.section_key x)) eqn:Ek.
        -- apply key_eqb_eq in Ek. subst key.
           assert (s = old) by congruence. subst s.
           exists pre0, c0, (post0 ++ [x]). rewrite El, <- app_assoc. simpl.
           repeat split; auto. intros y Hy Hyk. apply in_app_or in Hy.
           destruct Hy as [Hy | [<- | []]]; [ auto | exact Eq ].
        -- apply (eqb_false_neq Pyth.key_eqb key_eqb_eq) in Ek.
           now apply Hother.
      * intros key Hn y Hy. apply in_app_or in Hy.
        destruct Hy as [Hy | [<- | []]]; [ now apply (HC key Hn) | ].
        intros E. rewrite E in Eo. congruence.
  - (* a new section *)
    split; [ | split ].
    + intros key s. rewrite (dict_get_set Pyth.key_eqb key_eqb_eq).
      destruct (Pyth.key_eqb key (Pyth.section_key x)) eqn:Ek.
      * apply key_eqb_eq in Ek. subst key. intros H. injection H as <-.
        apply Hnew; [ | reflexivity ].
        intros y Hy Hyk. exfalso. exact (HC _ Eo y Hy Hyk).
      * apply (eqb_false_neq Pyth.key_eqb key_eqb_eq) in Ek.
        now apply Hother.
    + intros key. rewrite (dict_get_set Pyth.key_eqb key_eqb_eq).
      destruct (Pyth.key_eqb key (Pyth.section_key x)) eqn:Ek;
        [ discriminate | ].
      apply (eqb_false_neq Pyth.key_eqb key_eqb_eq) in Ek.
      intros Hn y Hy. apply in_app_or in Hy.
      destruct Hy as [Hy | [<- | []]]; [ now apply (HC key Hn) | auto ].
    + now apply (keys_dict_update_nodup Pyth.key_eqb key_eqb_eq).
Qed.

Lemma sections_invariant_holds (l : list Pyth.Scored.t) :
  sections_invariant l (Pyth.sections l).
Proof.
  unfold Pyth.sections.
  induction l as [ | x l IH ] using rev_ind.
  - split; [ intros key s H; discriminate | ].
    split; [ intros key _ x [] | constructor ].
  - rewrite fold_left_app. simpl. now apply add_section_invariant.
Qed.

(** X15. A section of the ranking stands for its best chunk: the entry
    kept under a (document, section title) key has the score and the page
    number of the first chunk, in input order, that reaches the highest
    score among the chunks of that key; and every chunk has its key in the
    dictionary. *)
Theorem section_best_chunk (all_chunks : list Pyth.Scored.t)
        (key : Pyth.SectionKey) (s : Pyth.Sect.t) :
  dict_get Pyth.key_eqb (Pyth.sections all_chunks) key = Some s ->
  (exists pre c post,
      all_chunks = pre ++ c :: post /\ Pyth.section_key c = key
      /\ s = Pyth.section_of c
      /\ (forall x, In x pre -> Pyth.section_key x = key ->
                    (Pyth.Scored.score x < Pyth.Scored.score c)%Q)
      /\ (forall x, In x post -> Pyth.section_key x = key ->
                    (Pyth.Scored.score x <= Pyth.Scored.score c)%Q))
  /\ (forall x, In x all_chunks ->
        exists sx, dict_get Pyth.key_eqb (Pyth.sections all_chunks)
                     (Pyth.section_key x) = Some sx).
Proof.
  intros H. destruct (sections_invariant_holds all_chunks) as (HA & HC & _).
  split; [ exact (HA key s H) | ].
  intros x Hx.
  destruct (dict_get Pyth.key_eqb (Pyth.sections all_chunks)
              (Pyth.section_key x)) as [sx | ] eqn:E.
  - now exists sx.
  - exfalso. exact (HC _ E x Hx eq_refl).
Qed.

Lemma section_best_chunk_witness :
  (exists pre c post,
      sample_chunks = pre ++ c :: post /\ Pyth.section_key c = ("a", "S")%string
      /\ Pyth.Sect.mk "a" "S" 2 (3 # 4) = Pyth.section_of c
      /\ (forall x, In x pre -> Pyth.section_key x = ("a", "S")%string ->
                    (Pyth.Scored.score x < Pyth.Scored.score c)%Q)
      /\ (forall x, In x post -> Pyth.section_key x = ("a", "S")%string ->
                    (Pyth.Scored.score x <= Pyth.Scored.score c)%Q))
  /\ (forall x, In x sample_chunks ->
        exists sx, dict_get Pyth.key_eqb (Pyth.sections sample_chunks)
                     (Pyth.section_key x) = Some sx).
Proof.
  apply (section_best_chunk sample_chunks ("a", "S")%string
           (Pyth.Sect.mk "a" "S" 2 (3 # 4))).
  reflexivity.
Defined.

Lemma nth_error_indexed {A : Type} (l : list A) :
  forall k i,
    nth_error (combine (seq k (List.length l)) l) i
    = option_map (fun a => ((k + i)%nat, a)) (nth_error l i).
Proof.
  induction l as [ | a l IH ]; intros k [ | i ]; simpl; try reflexivity.
  - now rewrite Nat.add_0_r.
  - rewrite IH. now rewrite Nat.add_succ_r.
Qed.

Lemma nth_error_firstn_some {A : Type} (n : nat) (l : list A) :
  forall i x, nth_error (firstn n l) i = Some x ->
              nth_error l i = Some x /\ (i < n)%nat.
Proof.
  revert l. induction n as [ | n IH ]; intros l i x H.
  - simpl in H. destruct i; discriminate.
  - destruct l as [ | a l ]; [ simpl in H; destruct i; discriminate | ].
    destruct i as [ | i ]; simpl in *.
    + split; [ assumption | lia ].
    + destruct (IH l i x H). split; [ assumption | lia ].
Qed.

Lemma sections_values_keys (all_chunks : list Pyth.Scored.t) :
  map Pyth.sect_key (map snd (Pyth.sections all_chunks))
  = keys (Pyth.sections all_chunks).
Proof.
  destruct (sections_invariant_holds all_chunks) as (HA & _ & HN).
  unfold keys. rewrite map_map. apply map_ext_in. intros [k s] Hin. simpl.
  apply (in_dict_get Pyth.key_eqb key_eqb_eq) in Hin; [ | exact HN ].
  destruct (HA k s Hin) as (pre & c & post & _ & Hc & -> & _).
  exact Hc.
Qed.

(** X16. The extracted sections are the first 5 sections in non-increasing
    order of score, or all of them when there are fewer: the entry at
    position [i] has importance rank [i + 1] and the document, section
    title and page number of the section at that position of the ranking;
    no (document, section title) pair is listed twice. *)
Theorem extracted_sections_ranked (all_chunks : list Pyth.Scored.t) :
  List.length (Pyth.extracted_sections all_chunks)
  = Nat.min 5 (List.length (Pyth.sections all_chunks))
  /\ Permutation (map snd (Pyth.sections all_chunks))
                 (Pyth.ranked_sections all_chunks)
  /\ StronglySorted
       (fun a b => (Pyth.Sect.score b <= Pyth.Sect.score a)%Q)
       (Pyth.ranked_sections all_chunks)
  /\ (forall i e,
        nth_error (Pyth.extracted_sections all_chunks) i = Some e ->
        Pyth.ExtractedSection.importance_rank e = Z.of_nat i + 1
        /\ (i < 5)%nat
        /\ exists s,
             nth_error (Pyth.ranked_sections all_chunks) i = Some s
             /\ Pyth.ExtractedSection.document e = Pyth.Sect.document s
             /\ Pyth.ExtractedSection.section_title e
                = Pyth.Sect.section_title s
             /\ Pyth.ExtractedSection.page_number e
                = Pyth.Sect.page_number s)
  /\ NoDup (map Pyth.extracted_key (Pyth.extracted_sections all_chunks)).
Proof.
  assert (Hp : Permutation (map snd (Pyth.sections all_chunks))
                           (Pyth.ranked_sections all_chunks))
    by apply stable_sort_perm.
  split; [ | split; [ exact Hp | split; [ | split ] ] ].
  - unfold Pyth.extracted_sections, enumerate.
    rewrite length_map, length_combine, length_seq, Nat.min_id, length_firstn.
    rewrite <- (Permutation_length Hp). now rewrite length_map.
  - apply (StronglySorted_impl (in_order Pyth.higher_section)).
    + unfold in_order, Pyth.higher_section. intros a b H.
      now apply Qltb_false in H.
    + apply stable_sort_sorted;
        [ apply higher_section_asym | apply higher_section_trans ].
  - intros i e H. unfold Pyth.extracted_sections, enumerate in H.
    rewrite nth_error_map, nth_error_indexed in H.
    destruct (nth_error (firstn 5 (Pyth.ranked_sections all_chunks)) i)
      as [s | ] eqn:Es; [ | discriminate ].
    simpl in H. injection H as <-. simpl.
    apply nth_error_firstn_some in Es. destruct Es as [Es Hi].
    split; [ reflexivity | ]. split; [ assumption | ].
    exists s. auto.
  - assert (Hk : map Pyth.extracted_key (Pyth.extracted_sections all_chunks)
                 = map Pyth.sect_key
                     (firstn 5 (Pyth.ranked_sections all_chunks))).
    { unfold Pyth.extracted_sections, enumerate. rewrite map_map.
      generalize (firstn 5 (Pyth.ranked_sections all_chunks)).
      intros l. generalize 0%nat.
      induction l as [ | a l IH ]; intros k; simpl; [ reflexivity | ].
      now rewrite IH. }
    rewrite Hk.
    assert (Hnd : NoDup (map Pyth.sect_key (Pyth.ranked_sections all_chunks))).
    { eapply Permutation_NoDup; [ apply Permutation_map; exact Hp | ].
      rewrite sections_values_keys.
      apply (sections_invariant_holds all_chunks). }
    rewrite <- (firstn_skipn 5 (Pyth.ranked_sections all_chunks)) in Hnd.
    rewrite map_app in Hnd. now apply NoDup_app_remove_r in Hnd.
Qed.
